(** * transcribe_audio: the command-line pipeline of [main.py]

    A shallow embedding of [main.py] (argument handling, optional audio-track
    extraction through FFmpeg, Whisper invocation, transcript writing and
    temporary-directory cleanup) together with the properties of the
    pipeline.

    Python values are modelled as follows.
    - [str] is a sequence of Unicode code points ([list N]);
    - [pathlib.Path] is the pure POSIX path: a root and a list of parts;
    - the filesystem is a finite map from paths to nodes;
    - exceptions, [sys.exit] and the effects on the filesystem, the standard
      output and the sequence of external calls are threaded by a small
      state-and-exception monad;
    - everything the program only observes (what is on [PATH], what the
      engine answers, which system calls are refused) is a field of the
      record [Env]. *)

From Stdlib Require Import ZArith NArith Ascii String DecimalString DecimalZ.
From stdpp Require Import gmap list fin_maps.

Local Open Scope N_scope.

(** ** Python strings *)

Module Str.

Definition str := list N.

(** A literal of the source, written as a string of ASCII characters. *)
Definition lit (s : string) : str :=
  map N_of_ascii (list_ascii_of_string s).

(** [str.isspace] on one code point, the table [str.strip()] uses. *)
Definition isspace (c : N) : bool :=
  ((0x09 <=? c) && (c <=? 0x0D)) || ((0x1C <=? c) && (c <=? 0x20))
  || (c =? 0x85) || (c =? 0xA0) || (c =? 0x1680)
  || ((0x2000 <=? c) && (c <=? 0x200A))
  || (c =? 0x2028) || (c =? 0x2029) || (c =? 0x202F) || (c =? 0x205F)
  || (c =? 0x3000).

Fixpoint lstrip (s : str) : str :=
  match s with
  | c :: s' => if isspace c then lstrip s' else s
  | [] => []
  end.

Definition rstrip (s : str) : str := rev (lstrip (rev s)).

(** [s.strip()] *)
Definition strip (s : str) : str := rstrip (lstrip s).

Fixpoint startswith (s t : str) : bool :=
  match t, s with
  | [], _ => true
  | _ :: _, [] => false
  | b :: t', a :: s' => (a =? b) && startswith s' t'
  end.

(** [s.endswith(t)] *)
Definition endswith (s t : str) : bool := startswith (rev s) (rev t).

(** The truth value of a string: the empty string is false. *)
Definition truthy (s : str) : bool :=
  match s with [] => false | _ :: _ => true end.

(** [sep.join(l)] *)
Fixpoint join (sep : str) (l : list str) : str :=
  match l with
  | [] => []
  | [x] => x
  | x :: l' => x ++ sep ++ join sep l'
  end.

(** [s.split(sep)] for a one-character separator: the pieces between the
    occurrences of [sep], empty pieces included. *)
Fixpoint split (sep : N) (s : str) : list str :=
  match s with
  | [] => [[]]
  | c :: s' =>
      if c =? sep then [] :: split sep s'
      else match split sep s' with
           | w :: ws => (c :: w) :: ws
           | [] => [[c]]
           end
  end.

(** [s.rfind(c)]: the position of the last [c], or [None] where Python
    returns -1. *)
Fixpoint rfind (c : N) (s : str) : option nat :=
  match s with
  | [] => None
  | a :: s' =>
      match rfind c s' with
      | Some i => Some (S i)
      | None => if a =? c then Some O else None
      end
  end.

(** [str(n)] and [f"{n}"] for an [int]. *)
Definition of_int (z : Z) : str :=
  lit (NilEmpty.string_of_int (Z.to_int z)).

(** The inverse reading, used to state what a rendered index denotes. *)
Definition to_string (s : str) : string :=
  string_of_list_ascii (map ascii_of_N s).

(** ** UTF-8, the encoding the transcript is written with *)

Definition utf8_char (c : N) : option (list N) :=
  if c <? 0x80 then Some [c]
  else if c <? 0x800 then
    Some [N.lor 0xC0 (N.shiftr c 6); N.lor 0x80 (N.land c 0x3F)]
  else if c <? 0x10000 then
    if (0xD800 <=? c) && (c <=? 0xDFFF) then None
    else Some [N.lor 0xE0 (N.shiftr c 12);
               N.lor 0x80 (N.land (N.shiftr c 6) 0x3F);
               N.lor 0x80 (N.land c 0x3F)]
  else if c <? 0x110000 then
    Some [N.lor 0xF0 (N.shiftr c 18);
          N.lor 0x80 (N.land (N.shiftr c 12) 0x3F);
          N.lor 0x80 (N.land (N.shiftr c 6) 0x3F);
          N.lor 0x80 (N.land c 0x3F)]
  else None.

(** [s.encode("utf-8")]; [None] stands for [UnicodeEncodeError]. *)
Fixpoint encode_utf8 (s : str) : option (list N) :=
  match s with
  | [] => Some []
  | c :: s' =>
      match utf8_char c, encode_utf8 s' with
      | Some b, Some bs => Some (b ++ bs)
      | _, _ => None
      end
  end.

End Str.

Import Str.
Arguments lit s%_string.

(** ** pathlib.Path (POSIX flavour, CPython 3.12) *)

Record Path := mkPath { root : str; parts : list str }.

#[global] Instance Path_eq_dec : EqDecision Path.
Proof. solve_decision. Defined.

#[global] Instance Path_countable : Countable Path :=
  inj_countable' (fun p => (root p, parts p))
                 (fun rp => mkPath rp.1 rp.2)
                 (fun p => match p with mkPath _ _ => eq_refl end).

Module PurePath.

Definition sep : N := 47.

(** [posixpath.splitroot]: no root, the root [/], or the root [//] when the
    string starts with exactly two slashes. *)
Definition splitroot (p : str) : str * str :=
  if negb (startswith p [sep]) then ([], p)
  else if negb (startswith (drop 1 p) [sep]) || startswith (drop 2 p) [sep]
       then ([sep], drop 1 p)
       else (take 2 p, drop 2 p).

(** [Path(s)]: empty and [.] components are dropped. *)
Definition of_str (s : str) : Path :=
  let '(r, rel) := splitroot s in
  mkPath r (filter (fun x => x <> [] /\ x <> lit ".") (split sep rel)).

(** [str(p)] *)
Definition to_str (p : Path) : str :=
  if truthy (root p) then root p ++ join [sep] (parts p)
  else match parts p with
       | [] => lit "."
       | _ :: _ => join [sep] (parts p)
       end.

(** [p.parent]: a path without parts is its own parent. *)
Definition parent (p : Path) : Path :=
  match parts p with
  | [] => p
  | _ :: _ => mkPath (root p) (removelast (parts p))
  end.

(** [p.name] *)
Definition name (p : Path) : str := default [] (last (parts p)).

(** [p.suffix] and [p.stem]: the name is cut at its last dot, unless that
    dot is the first or the last character of the name. *)
Definition cut (nm : str) : option nat :=
  match rfind 46 nm with
  | Some i => if (0 <? i)%nat && (i <? length nm - 1)%nat then Some i else None
  | None => None
  end.

Definition suffix (p : Path) : str :=
  match cut (name p) with Some i => drop i (name p) | None => [] end.

Definition stem (p : Path) : str :=
  match cut (name p) with Some i => take i (name p) | None => name p end.

(** [p / key] for a string [key]: an absolute [key] replaces [p]. *)
Definition joinpath (p : Path) (key : str) : Path :=
  let q := of_str key in
  if truthy (root q) then q else mkPath (root p) (parts p ++ parts q).

(** [q] is [p] or lies below [p]. *)
Definition under (p q : Path) : Prop :=
  root q = root p /\ parts p `prefix_of` parts q.

#[global] Instance under_dec p q : Decision (under p q).
Proof. unfold under. apply _. Defined.

End PurePath.

Import PurePath.

(** ** Exceptions, the filesystem and the state of a run *)

Inductive exn :=
| SystemExit (msg : str)                       (* [sys.exit(msg)] *)
| ImportError (module : str)
| CalledProcessError (returncode : Z) (cmd : list str)
| OSError (what : str)                         (* and its subclasses *)
| RuntimeError (what : str)
| UnicodeEncodeError
| AttributeError
| EngineError (what : str).                    (* raised inside Whisper *)

(** [SystemExit] derives from [BaseException] only: [except Exception]
    does not catch it. *)
Definition is_Exception (e : exn) : bool :=
  match e with SystemExit _ => false | _ => true end.

Inductive node := Dir | File (content : list N).

(** The calls a run makes to the world outside the interpreter, in order. *)
Inductive event :=
| Dialog
| Stat (p : Path)
| Import (module : str)
| Which (prog : str)
| Mkdtemp (p : Path)
| Run (cmd : list str)
| LoadModel (name device : str)
| Transcribe (path : str) (language : option str)
| Mkdir (p : Path)
| OpenW (p : Path)
| Rmtree (p : Path).

(** The calls that read, write, create or remove files. *)
Definition file_work (ev : event) : bool :=
  match ev with
  | Dialog | Stat _ | Import _ | Which _ => false
  | _ => true
  end.

Record state := mkState {
  files : gmap Path node;
  stdout : list str;
  calls : list event
}.

(** The root and the working directory always exist. *)
Definition node_at (fs : gmap Path node) (p : Path) : option node :=
  match parts p with
  | [] => Some Dir
  | _ :: _ => fs !! p
  end.

(** Values of the dictionary [model.transcribe] returns. *)
Inductive value :=
| VStr (s : str)
| VNone
| VSegments (texts : list str).

Inductive res (A : Type) :=
| Ok (a : A)
| Raise (e : exn).
Arguments Ok {A} a.
Arguments Raise {A} e.

(** What the program observes of its environment. *)
Record Env := mkEnv {
  (** [filedialog.askopenfilename]; [None] when tkinter raises *)
  askopenfilename : option str;
  (** [os.path.expanduser] on a component that starts with a tilde *)
  os_expanduser : str -> str;
  (** [shutil.which] *)
  which : str -> option str;
  (** whether [import m] succeeds *)
  can_import : str -> bool;
  (** [torch.cuda.is_available()] *)
  cuda_is_available : bool;
  (** [tempfile.gettempdir()] and the random names [mkdtemp] draws *)
  gettempdir : str;
  candidate_names : list str;
  (** the external process: exit status and, if it wrote its last
      argument, the bytes written *)
  spawn : list str -> Z * option (list N);
  (** [str(e)] of a [CalledProcessError] *)
  describe : Z -> list str -> str;
  (** [whisper.load_model(name, device=device)]: the error raised, if any *)
  load_model : str -> str -> option exn;
  (** [model.transcribe(path, verbose=True, language=language)] of that
      model: the lines it prints while decoding, and its result *)
  transcribe : str -> str -> gmap Path node -> str -> option str ->
               list str * res (gmap str value);
  (** system calls the platform refuses (permissions, full disk, ...) *)
  mkdir_refused : Path -> bool;
  open_refused : Path -> bool;
  rmtree_fails : Path -> bool
}.

(** The namespace [parser.parse_args()] returns. *)
Record Args := mkArgs {
  input : option str;
  model : str;
  language : option str;
  audio_track : option Z;
  outdir : option str;
  device : option str
}.

(** ** The monad of a run *)

Definition M (A : Type) : Type := state -> res A * state.

Definition ret {A} (a : A) : M A := fun st => (Ok a, st).

Definition bind {A B} (c : M A) (k : A -> M B) : M B :=
  fun st =>
    match c st with
    | (Ok a, st') => k a st'
    | (Raise e, st') => (Raise e, st')
    end.

Definition raise {A} (e : exn) : M A := fun st => (Raise e, st).

(** [try: c  except <those e with h e = Some k>: k] *)
Definition try_except {A} (c : M A) (h : exn -> option (M A)) : M A :=
  fun st =>
    match c st with
    | (Ok a, st') => (Ok a, st')
    | (Raise e, st') =>
        match h e with
        | Some k => k st'
        | None => (Raise e, st')
        end
    end.

Notation "'do' x <- c ; k" := (bind c (fun x => k))
  (at level 10, x name, c at level 100, k at level 200).
Notation "c ;; k" := (bind c (fun _ => k))
  (at level 100, k at level 200, right associativity).

Definition log (ev : event) : M unit :=
  fun st => (Ok tt, mkState (files st) (stdout st) (calls st ++ [ev])).

Definition get_files : M (gmap Path node) := fun st => (Ok (files st), st).

Definition set_files (fs : gmap Path node) : M unit :=
  fun st => (Ok tt, mkState fs (stdout st) (calls st)).

(** [print(line)] *)
Definition print (line : str) : M unit :=
  fun st => (Ok tt, mkState (files st) (stdout st ++ [line]) (calls st)).

Definition print_lines (lines : list str) : M unit :=
  fun st => (Ok tt, mkState (files st) (stdout st ++ lines) (calls st)).

(** [sys.exit(msg)] *)
Definition sys_exit {A} (msg : str) : M A := raise (SystemExit msg).

(** ** Library calls *)

Definition newline : str := [10].

(** [p.exists()] *)
Definition path_exists (p : Path) : M bool :=
  log (Stat p) ;;
  do fs <- get_files ;
  ret (bool_decide (is_Some (node_at fs p))).

(** [p.expanduser()] *)
Definition expanduser (env : Env) (p : Path) : M Path :=
  match root p, parts p with
  | [], first :: rest =>
      if startswith first (lit "~") then
        let homedir := os_expanduser env first in
        if startswith homedir (lit "~")
        then raise (RuntimeError (lit "Could not determine home directory."))
        else let h := of_str homedir in
             ret (mkPath (root h) (parts h ++ rest))
      else ret p
  | _, _ => ret p
  end.

(** [os.path.join(a, b)] *)
Definition os_path_join (a b : str) : str :=
  if startswith b [sep] then b
  else if negb (truthy a) || endswith a [sep] then a ++ b
  else a ++ [sep] ++ b.

(** [tempfile.mkdtemp(prefix=prefix)]: the first candidate name that
    [os.mkdir] accepts; a name that exists already is skipped. *)
Fixpoint mkdtemp_from (env : Env) (prefix : str) (names : list str) : M str :=
  match names with
  | [] => raise (OSError (lit "No usable temporary directory name found"))
  | nm :: names' =>
      let file := os_path_join (gettempdir env) (prefix ++ nm) in
      do fs <- get_files ;
      match node_at fs (of_str file) with
      | Some _ => mkdtemp_from env prefix names'
      | None =>
          if mkdir_refused env (of_str file)
          then raise (OSError (lit "Permission denied"))
          else log (Mkdtemp (of_str file)) ;;
               set_files (<[of_str file := Dir]> fs) ;;
               ret file
      end
  end.

Definition mkdtemp (env : Env) (prefix : str) : M str :=
  mkdtemp_from env prefix (candidate_names env).

(** [subprocess.run(cmd, check=True)] *)
Definition subprocess_run_check (env : Env) (cmd : list str) : M unit :=
  log (Run cmd) ;;
  let '(returncode, written) := spawn env cmd in
  do fs <- get_files ;
  match written with
  | Some bytes => set_files (<[of_str (default [] (last cmd)) := File bytes]> fs)
  | None => ret tt
  end ;;
  if (returncode =? 0)%Z then ret tt
  else raise (CalledProcessError returncode cmd).

(** [p.mkdir(parents=True, exist_ok=True)], from the shallowest missing
    ancestor down to [p]. *)
Definition ancestors (p : Path) : list Path :=
  map (fun n => mkPath (root p) (take n (parts p))) (seq 1 (length (parts p))).

Fixpoint mkdir_chain (env : Env) (ps : list Path) : M unit :=
  match ps with
  | [] => ret tt
  | q :: ps' =>
      do fs <- get_files ;
      match node_at fs q with
      | Some Dir => mkdir_chain env ps'
      | Some (File _) => raise (OSError (lit "File exists"))
      | None =>
          if mkdir_refused env q then raise (OSError (lit "Permission denied"))
          else set_files (<[q := Dir]> fs) ;; mkdir_chain env ps'
      end
  end.

Definition mkdir_parents (env : Env) (p : Path) : M unit :=
  log (Mkdir p) ;; mkdir_chain env (ancestors p).

(** [with open(p, "w", encoding="utf-8") as f: f.write(text)]: the file is
    created or truncated when it is opened; the text is encoded when it is
    written. *)
Definition write_text (env : Env) (p : Path) (text : str) : M unit :=
  log (OpenW p) ;;
  do fs <- get_files ;
  match node_at fs (parent p), node_at fs p with
  | Some Dir, Some Dir => raise (OSError (lit "Is a directory"))
  | Some Dir, _ =>
      if open_refused env p then raise (OSError (lit "Permission denied"))
      else
        set_files (<[p := File []]> fs) ;;
        match encode_utf8 text with
        | Some bytes => set_files (<[p := File bytes]> fs)
        | None => raise UnicodeEncodeError
        end
  | _, _ => raise (OSError (lit "No such file or directory"))
  end.

(** [shutil.rmtree(d)]: [d] and everything below it is removed; a failing
    removal leaves the tree in place. *)
Definition rmtree (env : Env) (d : Path) : M unit :=
  log (Rmtree d) ;;
  if rmtree_fails env d then raise (OSError (lit "rmtree"))
  else do fs <- get_files ;
       set_files (filter (fun kv => ~ under d kv.1) fs).

(** ** The program *)

(** The test [if x] on an optional string: [None] and the empty string are
    both false. *)
Definition if_truthy (x : option str) : option str :=
  match x with
  | Some s => if truthy s then Some s else None
  | None => None
  end.

Definition lift {A} (r : res A) : M A :=
  match r with Ok a => ret a | Raise e => raise e end.

Definition pick_file_dialog (env : Env) : M (option Path) :=
  log Dialog ;;
  match askopenfilename env with
  | Some file_path =>
      ret (if truthy file_path then Some (of_str file_path) else None)
  | None => ret None
  end.

Definition ffmpeg_missing : str :=
  lit "FFmpeg not found. Please install FFmpeg and ensure it is in your PATH.".

Definition ensure_ffmpeg (env : Env) : M unit :=
  log (Which (lit "ffmpeg")) ;;
  match which env (lit "ffmpeg") with
  | None => sys_exit ffmpeg_missing
  | Some _ => ret tt
  end.

(** The command line of [extract_track_to_wav]. *)
Definition ffmpeg_cmd (src out_wav : Path) (track_index : Z) : list str :=
  [ lit "ffmpeg"; lit "-hide_banner"; lit "-loglevel"; lit "error"; lit "-y";
    lit "-i"; to_str src;
    lit "-vn"; lit "-map"; lit "0:a:" ++ of_int track_index;
    lit "-acodec"; lit "pcm_s16le"; lit "-ar"; lit "16000"; lit "-ac"; lit "1";
    to_str out_wav ].

Definition extract_track_to_wav (env : Env) (src : Path) (track_index : Z)
  : M Path :=
  ensure_ffmpeg env ;;
  do d <- mkdtemp env (lit "whisper_") ;
  let tmpdir := of_str d in
  let out_wav := joinpath tmpdir (lit "audio_track.wav") in
  subprocess_run_check env (ffmpeg_cmd src out_wav track_index) ;;
  ret out_wav.

(** [main], lines 63-66: the input path, from the command line or the
    picker. *)
Definition no_valid_input : str :=
  lit "No valid input file selected/provided.".

Definition resolve_input (env : Env) (args : Args) : M Path :=
  do src_path <-
    match if_truthy (input args) with
    | Some s => do p <- expanduser env (of_str s) ; ret (Some p)
    | None => pick_file_dialog env
    end ;
  match src_path with
  | None => sys_exit no_valid_input
  | Some p =>
      do found <- path_exists p ;
      if found then ret p else sys_exit no_valid_input
  end.

(** [main], lines 68-73. *)
Definition whisper_missing : str :=
  lit "The 'whisper' package is not installed. Install via: pip install -U openai-whisper".

Definition import_ (env : Env) (module : str) : M unit :=
  log (Import module) ;;
  if can_import env module then ret tt else raise (ImportError module).

Definition import_engine (env : Env) : M unit :=
  try_except (import_ env (lit "whisper") ;; import_ env (lit "torch"))
    (fun e => match e with
              | ImportError _ => Some (sys_exit whisper_missing)
              | _ => None
              end).

(** [main], line 76. *)
Definition resolve_device (env : Env) (args : Args) : str :=
  match if_truthy (device args) with
  | Some d => d
  | None => if cuda_is_available env then lit "cuda" else lit "cpu"
  end.

(** [main], lines 78-89: the file handed to Whisper and the directory to
    remove afterwards. *)
Definition extraction_failed (env : Env) (track : Z) (rc : Z) (cmd : list str)
  : str :=
  lit "FFmpeg failed to extract audio track " ++ of_int track ++ lit ": "
  ++ describe env rc cmd.

Definition prepare_media (env : Env) (args : Args) (src_path : Path)
  : M (Path * option Path) :=
  match audio_track args with
  | Some track =>
      try_except
        (do media_for_whisper <- extract_track_to_wav env src_path track ;
         ret (media_for_whisper, Some (parent media_for_whisper)))
        (fun e => match e with
                  | CalledProcessError rc cmd =>
                      Some (sys_exit (extraction_failed env track rc cmd))
                  | _ => None
                  end)
  | None => ret (src_path, None)
  end.

(** [main], lines 91-100. *)
Definition run_whisper (env : Env) (args : Args) (dev : str)
  (media_for_whisper : Path) : M (gmap str value) :=
  log (LoadModel (model args) dev) ;;
  match load_model env (model args) dev with
  | Some e => raise e
  | None =>
      log (Transcribe (to_str media_for_whisper) (language args)) ;;
      do fs <- get_files ;
      let heard := transcribe env (model args) dev fs
                     (to_str media_for_whisper) (language args) in
      print_lines heard.1 ;;
      lift heard.2
  end.

(** [main], lines 102-110: the transcript writer. *)
Definition output_dir (env : Env) (args : Args) (src_path : Path) : M Path :=
  match if_truthy (outdir args) with
  | Some o => expanduser env (of_str o)
  | None => ret (parent src_path)
  end.

Definition transcript_name (src_path : Path) : str :=
  stem src_path ++ lit "_transcript.txt".

(** [result.get("text", "").strip()] *)
Definition result_text (result : gmap str value) : res str :=
  match default (VStr []) (result !! lit "text") with
  | VStr s => Ok (strip s)
  | _ => Raise AttributeError
  end.

(** [text + ("\n" if text and not text.endswith("\n") else "")] *)
Definition file_text (text : str) : str :=
  text ++ (if truthy text && negb (endswith text newline) then newline else []).

Definition save_transcript (env : Env) (args : Args) (src_path : Path)
  (result : gmap str value) : M Path :=
  do out_dir <- output_dir env args src_path ;
  mkdir_parents env out_dir ;;
  let out_txt := joinpath out_dir (transcript_name src_path) in
  do text <- lift (result_text result) ;
  write_text env out_txt (file_text text) ;;
  ret out_txt.

(** [main], lines 114-119. *)
Definition cleanup (env : Env) (tmp_to_cleanup : option Path) : M unit :=
  match tmp_to_cleanup with
  | None => ret tt
  | Some d =>
      do found <- path_exists d ;
      if found then
        try_except (rmtree env d)
          (fun e => if is_Exception e then Some (ret tt) else None)
      else ret tt
  end.

Definition saved_to (out_txt : Path) : str :=
  lit "Transcript saved to: " ++ to_str out_txt.

Definition main (env : Env) (args : Args) : M unit :=
  do src_path <- resolve_input env args ;
  import_engine env ;;
  let dev := resolve_device env args in
  do prepared <- prepare_media env args src_path ;
  do result <- run_whisper env args dev prepared.1 ;
  do out_txt <- save_transcript env args src_path result ;
  print (saved_to out_txt) ;;
  cleanup env prepared.2.

(** ** The process *)

(** How the interpreter ends: a normal return, [sys.exit] with a message
    (printed on the standard error), or an exception nobody caught (a
    traceback). *)
Inductive outcome :=
| Returned
| Exited (msg : str)
| Uncaught (e : exn).

Definition exit_status (o : outcome) : Z :=
  match o with Returned => 0 | Exited _ | Uncaught _ => 1 end.

(** The state a process starts in. *)
Definition start (fs : gmap Path node) : state := mkState fs [] [].

Definition outcome_of (r : res unit) : outcome :=
  match r with
  | Ok _ => Returned
  | Raise (SystemExit msg) => Exited msg
  | Raise e => Uncaught e
  end.

Definition run (env : Env) (args : Args) (st : state) : outcome * state :=
  let '(r, st') := main env args st in (outcome_of r, st').

(** * Vocabulary of the properties *)

(** The parts of a path never contain the separator: every path the
    program builds comes from [of_str], [expanduser], [parent] or
    [joinpath]. *)
Definition wf_path (p : Path) : Prop := Forall (fun x => sep ∉ x) (parts p).

(** The events a stage adds to the trace. *)
Definition emits (P : event -> Prop) (st st' : state) : Prop :=
  exists evs, calls st' = calls st ++ evs /\ Forall P evs.

(** The classes of calls: of the engine, of the transcript writer, of the
    cleanup. *)
Definition is_engine (ev : event) : bool :=
  match ev with LoadModel _ _ | Transcribe _ _ => true | _ => false end.

Definition is_writer (ev : event) : bool :=
  match ev with Mkdir _ | OpenW _ => true | _ => false end.

Definition is_cleanup (ev : event) : bool :=
  match ev with Stat _ | Rmtree _ => true | _ => false end.

(** The later stages call the engine, the writer and the cleanup only. *)
Definition late (ev : event) : Prop :=
  is_engine ev = true \/ is_writer ev = true \/ is_cleanup ev = true.

(** The destination of the extraction inside [tmpdir]. *)
Definition wav_in (tmpdir : Path) : Path :=
  mkPath (root tmpdir) (parts tmpdir ++ [lit "audio_track.wav"]).

(** The state after the external tool ran in a newly made [tmpdir]. *)
Definition tool_ran (env : Env) (src : Path) (track : Z) (tmpdir : Path)
  (st st' : state) : Prop :=
  let cmd := ffmpeg_cmd src (wav_in tmpdir) track in
  node_at (files st) tmpdir = None /\
  stdout st' = stdout st /\
  calls st' = calls st ++ [Which (lit "ffmpeg"); Mkdtemp tmpdir; Run cmd] /\
  files st' =
    match (spawn env cmd).2 with
    | Some bytes =>
        <[of_str (to_str (wav_in tmpdir)) := File bytes]>
          (<[tmpdir := Dir]> (files st))
    | None => <[tmpdir := Dir]> (files st)
    end.

(** The stages of [main] that follow the preparation of the media. *)
Definition main_tail (env : Env) (args : Args) (src_path : Path)
  (prepared : Path * option Path) : M unit :=
  do result <- run_whisper env args (resolve_device env args) prepared.1 ;
  do out_txt <- save_transcript env args src_path result ;
  print (saved_to out_txt) ;;
  cleanup env prepared.2.


(** The integer a rendered index denotes. *)
Definition index_of (s : str) : option Z :=
  option_map Z.of_int (NilEmpty.int_of_string (to_string s)).

Definition isdigit (c : N) : bool := (48 <=? c) && (c <=? 57).

(** A path as [of_str] builds it: the root is empty, one slash or two
    slashes, and no part is empty, a lone dot, or contains the separator. *)
Definition normal_path (p : Path) : Prop :=
  (root p = [] \/ root p = [sep] \/ root p = [sep; sep]) /\
  Forall (fun x => (sep ∉ x) /\ x <> [] /\ x <> lit ".") (parts p).

(** The paths the program builds: parsed from a string, the parent of a
    path, a path joined with a string, a path with its home directory
    expanded. *)
Inductive built : Path -> Prop :=
| built_of_str (s : str) : built (of_str s)
| built_parent (p : Path) : built p -> built (parent p)
| built_joinpath (p : Path) (key : str) : built p -> built (joinpath p key)
| built_expanduser (env : Env) (p q : Path) (st st' : state) :
    built p -> expanduser env p st = (Ok q, st') -> built q.

(** There is nothing to transcribe: the path given with [--input] does not
    exist, or no [--input] was given and the picker returns nothing or a
    path that does not exist. *)
Definition nothing_to_transcribe (env : Env) (args : Args)
  (fs : gmap Path node) : Prop :=
  match if_truthy (input args) with
  | Some s =>
      exists p, expanduser env (of_str s) (start fs) = (Ok p, start fs) /\
                node_at fs p = None
  | None =>
      match if_truthy (askopenfilename env) with
      | Some f => node_at fs (of_str f) = None
      | None => True
      end
  end.

(** The calls of the input resolution. *)
Definition is_input_call (ev : event) : bool :=
  match ev with Dialog | Stat _ => true | _ => false end.


(** The calls of the extraction. *)
Definition is_staging_call (ev : event) : bool :=
  match ev with Which _ | Mkdtemp _ | Run _ => true | _ => false end.

(** The calls before the engine is started. *)
Definition early (ev : event) : Prop :=
  file_work ev = false \/ is_staging_call ev = true.


(** ** Statements of the specification that the program does not meet as
    they stand *)

(** The staged directory is gone after every run that staged one. *)
Definition staged_dir_always_removed (env : Env) (args : Args)
  (fs : gmap Path node) : Prop :=
  forall d, Mkdtemp d ∈ calls (run env args (start fs)).2 ->
  forall q, under d q -> files (run env args (start fs)).2 !! q = None.

(** A supplied [--device] is returned verbatim. *)
Definition device_override_verbatim (env : Env) (args : Args) : Prop :=
  forall d, device args = Some d -> resolve_device env args = d.

(** A supplied [--outdir] is the directory of the transcript. *)
Definition explicit_outdir_used (env : Env) (args : Args) (src : Path)
  (result : gmap str value) (st : state) : Prop :=
  forall o out st',
    outdir args = Some o ->
    save_transcript env args src result st = (Ok out, st') ->
    exists d, expanduser env (of_str o) st = (Ok d, st) /\
              out = joinpath d (transcript_name src).


(** ** Concrete runs *)

#[global] Instance node_eq_dec : EqDecision node.
Proof. solve_decision. Defined.

#[global] Instance event_eq_dec : EqDecision event.
Proof. solve_decision. Defined.

Module Demo.

(** A machine with [/media/multi.mkv] and [/videos/clip.mkv] on it. *)
Definition fs : gmap Path node :=
  {[ of_str (lit "/media") := Dir;
     of_str (lit "/media/multi.mkv") := File [26; 69; 223; 163];
     of_str (lit "/videos") := Dir;
     of_str (lit "/videos/clip.mkv") := File [26; 69; 223; 163];
     of_str (lit "/tmp") := Dir ]}.

Definition said (text : str) : gmap str value :=
  {[ lit "text" := VStr text;
     lit "segments" := VSegments [text];
     lit "language" := VStr (lit "en") ]}.

(** A result with segments and a language, and no text. *)
Definition no_text : gmap str value :=
  {[ lit "segments" := VSegments [lit "hello"];
     lit "language" := VStr (lit "en") ]}.

(** The environment: whether FFmpeg and whisper are installed, the exit
    status of the tool, what the engine answers, whether a removal
    fails.  An accelerator is present. *)
Definition env (ffmpeg_installed whisper_installed : bool) (tool_status : Z)
  (answer : res (gmap str value)) (removal_fails : bool) : Env :=
  {| askopenfilename := Some [];
     os_expanduser := fun s => lit "/home/user" ++ drop 1 s;
     which := fun _ =>
       if ffmpeg_installed then Some (lit "/usr/bin/ffmpeg") else None;
     can_import := fun _ => whisper_installed;
     cuda_is_available := true;
     gettempdir := lit "/tmp";
     candidate_names := [lit "k3x9q_2a"; lit "0dwm7rtb"];
     spawn := fun _ =>
       (tool_status,
        if (tool_status =? 0)%Z then Some [82; 73; 70; 70] else None);
     describe := fun rc _ =>
       lit "Command returned non-zero exit status " ++ of_int rc ++ lit ".";
     load_model := fun _ _ => None;
     transcribe := fun _ _ _ _ _ =>
       (match answer with
        | Ok _ => [lit "[00:00.000 --> 00:02.000]  Hi there."]
        | Raise _ => []
        end, answer);
     mkdir_refused := fun _ => false;
     open_refused := fun _ => false;
     rmtree_fails := fun _ => removal_fails |}.

Definition healthy : Env :=
  env true true 0 (Ok (said (lit "  Hi there.  "))) false.

Definition args (file : string) (track : option Z) (out_dir dev : option str)
  : Args :=
  mkArgs (Some (lit file)) (lit "medium") None track out_dir dev.

Definition multi : Path := of_str (lit "/media/multi.mkv").
Definition clip : Path := of_str (lit "/videos/clip.mkv").
Definition tmp : Path := of_str (lit "/tmp/whisper_k3x9q_2a").

(** [--input /media/multi.mkv --audio-track 1] *)
Definition track1 : Args := args "/media/multi.mkv" (Some 1%Z) None None.

(** The tool exits with status 1. *)
Definition tool_fails : Env := env true true 1 (Ok (said [])) false.

(** The engine runs out of memory. *)
Definition engine_fails : Env :=
  env true true 0 (Raise (EngineError (lit "CUDA out of memory"))) false.


(** [--input /media/multi.mkv], no track selected. *)
Definition direct : Args := args "/media/multi.mkv" None None None.

(** [--input ""]: the picker is opened, and cancelled. *)
Definition empty_input : Args := args "" None None None.

(** [--input /media/absent.mkv]: no such file. *)
Definition absent : Args := args "/media/absent.mkv" None None None.

(** [--input /videos/clip.mkv --outdir /media/multi.mkv]: the output
    directory is an existing file. *)
Definition outdir_is_file : Args :=
  args "/videos/clip.mkv" None (Some (lit "/media/multi.mkv")) None.

(** [--input /media/multi.mkv --outdir /exports/2024/talks]: nothing of the
    output directory exists yet. *)
Definition new_outdir : Args :=
  args "/media/multi.mkv" None (Some (lit "/exports/2024/talks")) None.

(** A text with a lone surrogate, which UTF-8 cannot encode. *)
Definition lone_surrogate : str := lit "caf" ++ [55296%N].

End Demo.

(** * Properties *)

(** ** Strings *)

Section StrFacts.






End StrFacts.

(** ** Paths *)

Section PathFacts.

Lemma split_no_sep (s : str) : Forall (fun x => sep ∉ x) (split sep s).
Proof.
  induction s as [|c s IH]; simpl.
  - repeat constructor. apply not_elem_of_nil.
  - destruct (N.eqb_spec c sep) as [->|Hne].
    + constructor; [apply not_elem_of_nil | exact IH].
    + destruct (split sep s) as [|w ws].
      * repeat constructor. rewrite not_elem_of_cons. split; [congruence|apply not_elem_of_nil].
      * inversion IH; subst. constructor; [|assumption].
        rewrite not_elem_of_cons. split; [congruence|assumption].
Qed.

Lemma split_single (s : str) : sep ∉ s -> split sep s = [s].
Proof.
  induction s as [|c s IH]; simpl; [reflexivity|].
  rewrite not_elem_of_cons. intros [Hc Hs].
  destruct (N.eqb_spec c sep) as [->|_]; [congruence|].
  by rewrite (IH Hs).
Qed.

Lemma of_str_wf (s : str) : wf_path (of_str s).
Proof.
  unfold wf_path, of_str. destruct (splitroot s) as [r rel]. simpl.
  apply Forall_forall. intros x Hx.
  apply list_elem_of_filter in Hx as [_ Hx].
  exact (proj1 (Forall_forall _ _) (split_no_sep rel) x Hx).
Qed.

Lemma of_str_name (s : str) :
  sep ∉ s -> s <> [] -> s <> lit "." -> of_str s = mkPath [] [s].
Proof.
  intros Hsep Hne Hdot. unfold of_str, splitroot.
  destruct s as [|c s]; [congruence|].
  assert (Hc : c <> sep) by (intros ->; apply Hsep; left).
  simpl startswith. destruct (N.eqb_spec c sep) as [|_]; [contradiction|].
  simpl negb. cbv iota. rewrite (split_single _ Hsep).
  rewrite filter_cons_True by (split; assumption).
  reflexivity.
Qed.

Lemma joinpath_name (d : Path) (s : str) :
  sep ∉ s -> s <> [] -> s <> lit "." ->
  joinpath d s = mkPath (root d) (parts d ++ [s]).
Proof.
  intros. unfold joinpath. by rewrite of_str_name.
Qed.

Lemma parent_snoc (r : str) (ps : list str) (x : str) :
  parent (mkPath r (ps ++ [x])) = mkPath r ps.
Proof.
  unfold parent. simpl. rewrite removelast_last.
  by destruct ps.
Qed.

Lemma parent_wf (p : Path) : wf_path p -> wf_path (parent p).
Proof.
  unfold wf_path, parent. destruct (parts p) as [|x xs] eqn:E.
  - by rewrite E.
  - intros H. cbn [parts].
    destruct (exists_last (l := x :: xs)) as (ys & y & Heq); [discriminate|].
    rewrite Heq in H |- *.
    rewrite removelast_last. by apply Forall_app in H as [H _].
Qed.

Lemma name_no_sep (p : Path) : wf_path p -> sep ∉ name p.
Proof.
  unfold wf_path, name. intros H.
  destruct (last (parts p)) as [x|] eqn:E; simpl; [|apply not_elem_of_nil].
  apply last_Some_elem_of in E.
  exact (proj1 (Forall_forall _ _) H x E).
Qed.

Lemma stem_no_sep (p : Path) : wf_path p -> sep ∉ stem p.
Proof.
  intros H. pose proof (name_no_sep p H) as Hn. unfold stem.
  destruct (cut (name p)) as [i|]; [|exact Hn].
  intros Hin. apply Hn. rewrite <- (take_drop i (name p)).
  apply elem_of_app. by left.
Qed.

(** The name is the stem followed by the suffix. *)
Lemma stem_suffix (p : Path) : name p = stem p ++ suffix p.
Proof.
  unfold stem, suffix. destruct (cut (name p)) as [i|].
  - by rewrite take_drop.
  - by rewrite app_nil_r.
Qed.




Lemma transcript_name_simple (src : Path) :
  wf_path src ->
  (sep ∉ transcript_name src) /\ transcript_name src <> [] /\
  transcript_name src <> lit ".".
Proof.
  intros H. unfold transcript_name. repeat split.
  - rewrite elem_of_app. intros [Hs|Hs].
    + by apply (stem_no_sep src H).
    + vm_compute in Hs. repeat (apply elem_of_cons in Hs as [Hs|Hs]; [discriminate|]).
      by apply elem_of_nil in Hs.
  - intros E. apply (f_equal length) in E. rewrite length_app in E.
    change (length (lit "_transcript.txt")) with 15%nat in E.
    simpl in E. lia.
  - intros E. apply (f_equal length) in E. rewrite length_app in E.
    change (length (lit "_transcript.txt")) with 15%nat in E.
    change (length (lit ".")) with 1%nat in E. lia.
Qed.

End PathFacts.

(** ** The monad *)

Section MonadFacts.

Context {A B : Type}.

Lemma bind_inv (c : M A) (k : A -> M B) st r st' :
  bind c k st = (r, st') ->
  (exists a st1, c st = (Ok a, st1) /\ k a st1 = (r, st')) \/
  (exists e, c st = (Raise e, st') /\ r = Raise e).
Proof.
  unfold bind. destruct (c st) as [[a|e] st1].
  - intros H. left. by exists a, st1.
  - intros [= <- <-]. right. by exists e.
Qed.

Lemma bind_ok (c : M A) (k : A -> M B) st a st1 :
  c st = (Ok a, st1) -> bind c k st = k a st1.
Proof. unfold bind. by intros ->. Qed.

Lemma bind_raise (c : M A) (k : A -> M B) st e st1 :
  c st = (Raise e, st1) -> bind c k st = (Raise e, st1).
Proof. unfold bind. by intros ->. Qed.

Lemma try_except_inv (c : M A) (h : exn -> option (M A)) st r st' :
  try_except c h st = (r, st') ->
  (exists a, c st = (Ok a, st') /\ r = Ok a) \/
  (exists e st1, c st = (Raise e, st1) /\
     match h e with
     | Some k => k st1 = (r, st')
     | None => r = Raise e /\ st' = st1
     end).
Proof.
  unfold try_except. destruct (c st) as [[a|e] st1].
  - intros [= <- <-]. left. by exists a.
  - intros H. right. exists e, st1. split; [done|].
    destruct (h e); [done|]. by injection H as <- <-.
Qed.

End MonadFacts.

Lemma emits_refl P st : emits P st st.
Proof. exists []. by rewrite app_nil_r. Qed.

Lemma emits_trans P st1 st2 st3 :
  emits P st1 st2 -> emits P st2 st3 -> emits P st1 st3.
Proof.
  intros (e1 & H1 & F1) (e2 & H2 & F2). exists (e1 ++ e2).
  split; [by rewrite H2, H1, app_assoc | by apply Forall_app].
Qed.

Lemma emits_weaken (P Q : event -> Prop) st st' :
  (forall e, P e -> Q e) -> emits P st st' -> emits Q st st'.
Proof.
  intros HPQ (evs & H & F). exists evs. split; [done|].
  eapply Forall_impl; eauto.
Qed.

Lemma emits_log P ev st st' r :
  log ev st = (r, st') -> P ev -> emits P st st'.
Proof.
  intros [= <- <-] HP. exists [ev]. split; [done|]. by constructor.
Qed.

(** ** The stages of [main] *)

Section Stages.

Variable env : Env.

Lemma expanduser_spec (p : Path) st r st' :
  expanduser env p st = (r, st') ->
  st' = st /\
  match r with
  | Ok q => wf_path p -> wf_path q
  | Raise e => exists w, e = RuntimeError w
  end.
Proof.
  unfold expanduser, ret, raise.
  destruct (root p) as [|c rt] eqn:Hr; [|intros [= <- <-]; by split].
  destruct (parts p) as [|first rest] eqn:Hp; [intros [= <- <-]; by split|].
  destruct (startswith first (lit "~")); [|intros [= <- <-]; by split].
  destruct (startswith (os_expanduser env first) (lit "~")).
  - intros [= <- <-]. split; [done|]. eauto.
  - intros [= <- <-]. split; [done|].
    unfold wf_path. rewrite Hp. cbn [parts]. intros Hwf.
    apply Forall_app. split; [apply of_str_wf|].
    by inversion Hwf.
Qed.

Lemma pick_file_dialog_spec st r st' :
  pick_file_dialog env st = (r, st') ->
  files st' = files st /\ stdout st' = stdout st /\
  emits (fun e => file_work e = false) st st' /\
  exists o, r = Ok o /\ forall p, o = Some p -> wf_path p.
Proof.
  unfold pick_file_dialog. intros H.
  apply bind_inv in H as [(a & st1 & Hlog & H)|(e & Hlog & _)]; [|discriminate].
  pose proof (emits_log (fun e => file_work e = false) _ _ _ _ Hlog eq_refl) as He.
  injection Hlog as _ <-.
  destruct (askopenfilename env) as [file_path|];
    injection H as <- <-; (repeat split; [done..|]).
  - eexists. split; [done|]. intros p. destruct (truthy file_path); [|done].
    intros [= <-]. apply of_str_wf.
  - by eexists.
Qed.

Lemma path_exists_spec (p : Path) st r st' :
  path_exists p st = (r, st') ->
  files st' = files st /\ stdout st' = stdout st /\
  calls st' = calls st ++ [Stat p] /\
  r = Ok (bool_decide (is_Some (node_at (files st) p))).
Proof. by intros [= <- <-]. Qed.

Lemma resolve_input_spec (args : Args) st r st' :
  resolve_input env args st = (r, st') ->
  files st' = files st /\ stdout st' = stdout st /\
  emits (fun e => file_work e = false) st st' /\
  match r with
  | Ok p => wf_path p
  | Raise e => e = SystemExit no_valid_input \/ exists w, e = RuntimeError w
  end.
Proof.
  unfold resolve_input. intros H.
  apply bind_inv in H as [(o & st1 & Hsrc & H)|(e & Hsrc & ->)].
  - assert (Hst1 : files st1 = files st /\ stdout st1 = stdout st /\
                   emits (fun e => file_work e = false) st st1 /\
                   forall p, o = Some p -> wf_path p).
    { destruct (if_truthy (input args)) as [s|].
      - apply bind_inv in Hsrc as [(q & st2 & Hq & Hret)|(e & Hq & [=])].
        apply expanduser_spec in Hq as [-> Hq]. injection Hret as <- <-.
        repeat split; [apply emits_refl|]. intros p [= <-]. apply Hq, of_str_wf.
      - apply pick_file_dialog_spec in Hsrc as (? & ? & ? & o' & [= <-] & ?).
        by repeat split. }
    destruct Hst1 as (Hf & Ho & He & Hwf).
    destruct o as [p|].
    + apply bind_inv in H as [(found & st2 & Hex & H)|(e & [=] & _)].
      apply path_exists_spec in Hex as (Hf2 & Ho2 & Hc2 & _).
      assert (He2 : emits (fun e => file_work e = false) st st2).
      { eapply emits_trans; [exact He|]. exists [Stat p]. split; [done|].
        by constructor. }
      destruct found; injection H as <- <-;
        (split; [congruence|]); (split; [congruence|]); (split; [done|]).
      * by apply Hwf.
      * by left.
    + injection H as <- <-. repeat split; try done. by left.
  - destruct (if_truthy (input args)) as [s|].
    + apply bind_inv in Hsrc as [(q & st2 & Hq & [=])|(e' & Hq & [= <-])].
      apply expanduser_spec in Hq as [-> Hq].
      repeat split; [apply emits_refl|]. by right.
    + apply pick_file_dialog_spec in Hsrc as (? & ? & ? & o' & [=] & ?).
Qed.

Lemma import_engine_spec st r st' :
  import_engine env st = (r, st') ->
  files st' = files st /\ stdout st' = stdout st /\
  emits (fun e => file_work e = false) st st' /\
  (r = Ok tt /\ can_import env (lit "whisper") = true /\
                can_import env (lit "torch") = true
   \/ r = Raise (SystemExit whisper_missing) /\
      (can_import env (lit "whisper") = false \/
       can_import env (lit "torch") = false)).
Proof.
  unfold import_engine, try_except, import_, bind, log, ret, raise, sys_exit.
  destruct (can_import env (lit "whisper")); cbv beta iota;
    [destruct (can_import env (lit "torch")); cbv beta iota|];
    intros [= <- <-]; cbn [files stdout calls];
    (repeat split; [..|by auto]);
    eexists; (split; [by rewrite <- ?app_assoc|]); by repeat constructor.
Qed.

(** *** Extraction *)

Lemma joinpath_wav (tmpdir : Path) :
  joinpath tmpdir (lit "audio_track.wav") = wav_in tmpdir.
Proof.
  apply joinpath_name.
  - intros H. vm_compute in H.
    repeat (apply elem_of_cons in H as [H|H]; [discriminate|]).
    by apply elem_of_nil in H.
  - discriminate.
  - discriminate.
Qed.

Lemma parent_wav (tmpdir : Path) : parent (wav_in tmpdir) = tmpdir.
Proof. unfold wav_in. rewrite parent_snoc. by destruct tmpdir. Qed.

Lemma mkdtemp_from_spec (prefix : str) (names : list str) st r st' :
  mkdtemp_from env prefix names st = (r, st') ->
  (exists w, r = Raise (OSError w) /\ st' = st) \/
  (exists file, r = Ok file /\
     node_at (files st) (of_str file) = None /\
     st' = mkState (<[of_str file := Dir]> (files st)) (stdout st)
                   (calls st ++ [Mkdtemp (of_str file)])).
Proof.
  induction names as [|nm names IH]; simpl.
  - intros [= <- <-]. left. eauto.
  - unfold bind at 1. unfold get_files at 1.
    destruct (node_at (files st) _) eqn:Hn; [exact IH|].
    destruct (mkdir_refused env _).
    + intros [= <- <-]. left. eauto.
    + intros [= <- <-]. right. eexists. split; [done|]. by split.
Qed.

Lemma ensure_ffmpeg_eq st :
  ensure_ffmpeg env st =
  (match which env (lit "ffmpeg") with
   | None => Raise (SystemExit ffmpeg_missing)
   | Some _ => Ok tt
   end,
   mkState (files st) (stdout st) (calls st ++ [Which (lit "ffmpeg")])).
Proof. unfold ensure_ffmpeg, bind, log. by destruct (which env _). Qed.

Lemma subprocess_run_check_eq (cmd : list str) st :
  subprocess_run_check env cmd st =
  (if ((spawn env cmd).1 =? 0)%Z then Ok tt
   else Raise (CalledProcessError (spawn env cmd).1 cmd),
   mkState
     match (spawn env cmd).2 with
     | Some bytes => <[of_str (default [] (last cmd)) := File bytes]> (files st)
     | None => files st
     end (stdout st) (calls st ++ [Run cmd])).
Proof.
  unfold subprocess_run_check, bind, log, get_files, set_files, ret, raise.
  destruct (spawn env cmd) as [rc [bytes|]]; cbn [fst snd];
    by destruct (rc =? 0)%Z.
Qed.

Lemma extract_track_to_wav_spec (src : Path) (track : Z) st r st' :
  extract_track_to_wav env src track st = (r, st') ->
  (which env (lit "ffmpeg") = None /\ r = Raise (SystemExit ffmpeg_missing) \/
   is_Some (which env (lit "ffmpeg")) /\ exists w, r = Raise (OSError w)) /\
  files st' = files st /\ stdout st' = stdout st /\
  calls st' = calls st ++ [Which (lit "ffmpeg")]
  \/
  is_Some (which env (lit "ffmpeg")) /\
  exists tmpdir, tool_ran env src track tmpdir st st' /\
    let cmd := ffmpeg_cmd src (wav_in tmpdir) track in
    r = if ((spawn env cmd).1 =? 0)%Z then Ok (wav_in tmpdir)
        else Raise (CalledProcessError (spawn env cmd).1 cmd).
Proof.
  unfold extract_track_to_wav. unfold bind at 1. rewrite ensure_ffmpeg_eq.
  destruct (which env (lit "ffmpeg")) as [w|] eqn:Hw.
  - unfold bind at 1, mkdtemp.
    destruct (mkdtemp_from _ _ _ _) as [[d|e] st1] eqn:Hd;
      apply mkdtemp_from_spec in Hd as [(w' & Hr & Hst)|(file & Hr & Hfresh & Hst)];
      try discriminate.
    + injection Hr as <-. subst st1. rewrite joinpath_wav.
      unfold bind at 1. rewrite subprocess_run_check_eq.
      intros H. right. split; [done|]. exists (of_str d).
      assert (Hlast : default [] (last (ffmpeg_cmd src (wav_in (of_str d)) track))
                      = to_str (wav_in (of_str d))) by reflexivity.
      rewrite Hlast in H. cbn [files stdout calls] in H.
      destruct (_ =? 0)%Z; injection H as <- <-;
        (split; [|done]); unfold tool_ran; cbn [files stdout calls];
        rewrite <- !app_assoc; by repeat split.
    + injection Hr as ->. subst st1. intros [= <- <-]. left.
      cbn [files stdout calls]. repeat split; try done.
      right. split; [done|]. eauto.
  - intros [= <- <-]. left. cbn [files stdout calls].
    repeat split; try done. by left.
Qed.

Lemma prepare_media_spec (args : Args) (src : Path) st r st' :
  prepare_media env args src st = (r, st') ->
  match audio_track args with
  | None => r = Ok (src, None) /\ st' = st
  | Some track =>
      (which env (lit "ffmpeg") = None /\ r = Raise (SystemExit ffmpeg_missing) \/
       is_Some (which env (lit "ffmpeg")) /\ exists w, r = Raise (OSError w)) /\
      files st' = files st /\ stdout st' = stdout st /\
      calls st' = calls st ++ [Which (lit "ffmpeg")]
      \/
      is_Some (which env (lit "ffmpeg")) /\
      exists tmpdir, tool_ran env src track tmpdir st st' /\
        let cmd := ffmpeg_cmd src (wav_in tmpdir) track in
        r = if ((spawn env cmd).1 =? 0)%Z then Ok (wav_in tmpdir, Some tmpdir)
            else Raise (SystemExit
                   (extraction_failed env track (spawn env cmd).1 cmd))
  end.
Proof.
  unfold prepare_media. destruct (audio_track args) as [track|].
  - unfold try_except, bind at 1.
    destruct (extract_track_to_wav _ _ _ _) as [r0 st0] eqn:Hx.
    apply extract_track_to_wav_spec in Hx
      as [(Hr & Hrest)|(Hw & tmpdir & Hran & Hr)].
    + destruct Hr as [[Hw ->]|[Hw [w ->]]]; intros [= <- <-]; left;
        (split; [|done]); [left|right]; eauto.
    + right. split; [done|]. exists tmpdir. cbv zeta in Hr |- *.
      revert H. rewrite Hr. destruct (_ =? 0)%Z.
      * unfold ret. rewrite parent_wav. intros [= <- <-]. by split.
      * unfold sys_exit, raise. intros [= <- <-]. by split.
  - by intros [= <- <-].
Qed.

(** *** The engine *)

Lemma run_whisper_spec (args : Args) (dev : str) (media : Path) st r st' :
  run_whisper env args dev media st = (r, st') ->
  files st' = files st /\
  (exists printed, stdout st' = stdout st ++ printed) /\
  emits (fun e => is_engine e = true) st st'.
Proof.
  unfold run_whisper, bind, log, get_files, print_lines, lift, ret, raise.
  destruct (load_model env _ _).
  - intros [= <- <-]. repeat split.
    + exists []. cbn [stdout]. by rewrite app_nil_r.
    + eexists. split; [done|]. by repeat constructor.
  - cbn [files stdout calls]. cbv zeta.
    destruct (transcribe env _ _ _ _ _) as [printed [result|e]];
      cbn [fst snd]; intros [= <- <-]; (split; [done|]);
      (split; [by exists printed|]);
      cbn [calls]; rewrite <- app_assoc;
      (eexists; split; [done|]; by repeat constructor).
Qed.

(** *** The transcript writer *)

Lemma node_at_insert_Dir (fs : gmap Path node) (q p : Path) :
  node_at fs p = Some Dir -> node_at (<[q := Dir]> fs) p = Some Dir.
Proof.
  unfold node_at. destruct (parts p); [done|].
  intros H. destruct (decide (q = p)) as [->|Hne].
  - by rewrite lookup_insert_eq.
  - by rewrite lookup_insert_ne.
Qed.

Lemma mkdir_chain_spec (ps : list Path) st r st' :
  mkdir_chain env ps st = (r, st') ->
  stdout st' = stdout st /\ calls st' = calls st /\
  (forall p n, files st !! p = Some n -> files st' !! p = Some n) /\
  (forall p, node_at (files st) p = Some Dir ->
             node_at (files st') p = Some Dir) /\
  (r = Ok tt -> Forall (fun q => node_at (files st') q = Some Dir) ps).
Proof.
  revert st. induction ps as [|q ps IH]; intros st; simpl.
  - intros [= <- <-]. by repeat split.
  - unfold bind at 1, get_files at 1.
    destruct (node_at (files st) q) as [[|content]|] eqn:Hq.
    + intros H. destruct (IH _ H) as (Ho & Hc & Hkeep & Hdir & Hall).
      repeat split; try done. intros Hr. constructor; [by apply Hdir|by apply Hall].
    + intros [= <- <-]. by repeat split.
    + destruct (mkdir_refused env q); [intros [= <- <-]; by repeat split|].
      unfold bind at 1, set_files at 1. intros H.
      destruct (IH _ H) as (Ho & Hc & Hkeep & Hdir & Hall).
      cbn [files stdout calls] in *.
      assert (Hnone : forall p n, files st !! p = Some n -> q <> p).
      { intros p n Hp ->. unfold node_at in Hq.
        destruct (parts p); [discriminate|]. congruence. }
      repeat split; try done.
      * intros p n Hp. apply Hkeep. rewrite lookup_insert_ne; [done|].
        by eapply Hnone.
      * intros p Hp. by apply Hdir, node_at_insert_Dir.
      * intros Hr. constructor; [|by apply Hall].
        apply Hdir. unfold node_at. destruct (parts q); [done|].
        by rewrite lookup_insert_eq.
Qed.

Lemma mkdir_chain_idem (ps : list Path) st :
  Forall (fun q => node_at (files st) q = Some Dir) ps ->
  mkdir_chain env ps st = (Ok tt, st).
Proof.
  induction 1 as [|q ps Hq _ IH]; simpl; [done|].
  unfold bind, get_files. by rewrite Hq.
Qed.

Lemma ancestors_self (p : Path) :
  parts p <> [] -> p ∈ ancestors p.
Proof.
  intros Hne. unfold ancestors. apply list_elem_of_fmap.
  exists (length (parts p)). split.
  - rewrite firstn_all. by destruct p.
  - apply elem_of_seq. destruct (parts p); [done|]. simpl. lia.
Qed.

Lemma mkdir_parents_spec (p : Path) st r st' :
  mkdir_parents env p st = (r, st') ->
  stdout st' = stdout st /\ calls st' = calls st ++ [Mkdir p] /\
  (forall q n, files st !! q = Some n -> files st' !! q = Some n) /\
  (r = Ok tt ->
   node_at (files st') p = Some Dir /\
   Forall (fun q => node_at (files st') q = Some Dir) (ancestors p)).
Proof.
  unfold mkdir_parents, bind at 1, log at 1. intros H.
  apply mkdir_chain_spec in H as (Ho & Hc & Hkeep & _ & Hall).
  cbn [files stdout calls] in *. repeat split; try done.
  - destruct (parts p) eqn:Hp; [by unfold node_at; rewrite Hp|].
    specialize (Hall H).
    apply (proj1 (Forall_forall _ _) Hall). apply ancestors_self. congruence.
  - by apply Hall.
Qed.

Lemma expanduser_state (p : Path) st r st' st2 :
  expanduser env p st = (r, st') -> expanduser env p st2 = (r, st2).
Proof.
  unfold expanduser, ret, raise.
  repeat case_match; by intros [= <- <-].
Qed.

Lemma output_dir_state (args : Args) (src : Path) st r st' st2 :
  output_dir env args src st = (r, st') ->
  st' = st /\ output_dir env args src st2 = (r, st2).
Proof.
  unfold output_dir. destruct (if_truthy (outdir args)) as [o|].
  - intros H. split.
    + by apply expanduser_spec in H as [-> _].
    + by eapply expanduser_state.
  - by intros [= <- <-].
Qed.

Lemma write_text_eq (p : Path) (text : str) st :
  write_text env p text st =
  let opened := mkState (files st) (stdout st) (calls st ++ [OpenW p]) in
  match node_at (files st) (parent p), node_at (files st) p with
  | Some Dir, Some Dir => (Raise (OSError (lit "Is a directory")), opened)
  | Some Dir, _ =>
      if open_refused env p
      then (Raise (OSError (lit "Permission denied")), opened)
      else match encode_utf8 text with
           | Some bytes =>
               (Ok tt, mkState (<[p := File bytes]> (files st)) (stdout st)
                               (calls st ++ [OpenW p]))
           | None =>
               (Raise UnicodeEncodeError,
                mkState (<[p := File []]> (files st)) (stdout st)
                        (calls st ++ [OpenW p]))
           end
  | _, _ => (Raise (OSError (lit "No such file or directory")), opened)
  end.
Proof.
  unfold write_text, bind, log, get_files, set_files, ret, raise.
  cbn [files stdout calls]. by repeat case_match.
Qed.

(** What a successful write looked like. *)
Lemma save_transcript_ok_inv (args : Args) (src : Path)
  (result : gmap str value) st out st' :
  save_transcript env args src result st = (Ok out, st') ->
  exists out_dir st1 text content,
    output_dir env args src st = (Ok out_dir, st) /\
    mkdir_parents env out_dir st = (Ok tt, st1) /\
    out = joinpath out_dir (transcript_name src) /\
    result_text result = Ok text /\
    encode_utf8 (file_text text) = Some content /\
    node_at (files st1) (parent out) = Some Dir /\
    node_at (files st1) out <> Some Dir /\
    open_refused env out = false /\
    st' = mkState (<[out := File content]> (files st1)) (stdout st1)
                  (calls st1 ++ [OpenW out]).
Proof.
  unfold save_transcript. intros H.
  apply bind_inv in H as [(out_dir & st0 & Hd & H)|(e & _ & [=])].
  destruct (output_dir_state _ _ _ _ _ st Hd) as [-> _].
  apply bind_inv in H as [([] & st1 & Hmk & H)|(e & _ & [=])].
  apply bind_inv in H as [(text & st2 & Ht & H)|(e & _ & [=])].
  destruct (result_text result) as [text'|e] eqn:Hrt; [|discriminate].
  injection Ht as <- <-.
  apply bind_inv in H as [([] & st3 & Hw & [= <- <-])|(e & _ & [=])].
  rewrite write_text_eq in Hw. cbv zeta in Hw.
  destruct (node_at (files st1) (parent _)) as [[|?]|] eqn:Hpar;
    [|discriminate..].
  destruct (node_at (files st1) (joinpath _ _)) as [[|?]|] eqn:Hout;
    [discriminate|..];
    (destruct (open_refused env _) eqn:Hopen; [discriminate|]);
    (destruct (encode_utf8 (file_text text')) as [bytes|] eqn:Henc;
       [|discriminate]);
    injection Hw as <-; exists out_dir, st1, text', bytes;
    repeat (split; [done|]); (split; [congruence|]); by split.
Qed.

(** When a write succeeds. *)
Lemma save_transcript_ok (args : Args) (src : Path) (result : gmap str value)
  st out_dir st1 text content :
  output_dir env args src st = (Ok out_dir, st) ->
  mkdir_parents env out_dir st = (Ok tt, st1) ->
  result_text result = Ok text ->
  encode_utf8 (file_text text) = Some content ->
  let out := joinpath out_dir (transcript_name src) in
  node_at (files st1) (parent out) = Some Dir ->
  node_at (files st1) out <> Some Dir ->
  open_refused env out = false ->
  save_transcript env args src result st =
    (Ok out, mkState (<[out := File content]> (files st1)) (stdout st1)
                     (calls st1 ++ [OpenW out])).
Proof.
  intros Hd Hmk Ht Henc out Hpar Hout Hopen. unfold save_transcript.
  rewrite (bind_ok _ _ _ _ _ Hd), (bind_ok _ _ _ _ _ Hmk), Ht.
  cbn [lift]. unfold bind, ret. fold out.
  rewrite write_text_eq. cbv zeta. rewrite Hpar, Hopen, Henc.
  by destruct (node_at (files st1) out) as [[|?]|].
Qed.

Lemma save_transcript_frame (args : Args) (src : Path)
  (result : gmap str value) st r st' :
  save_transcript env args src result st = (r, st') ->
  stdout st' = stdout st /\ emits (fun e => is_writer e = true) st st' /\
  (forall q, is_Some (files st !! q) -> is_Some (files st' !! q)).
Proof.
  unfold save_transcript. intros H.
  apply bind_inv in H as [(out_dir & st0 & Hd & H)|(e & Hd & ->)].
  2:{ destruct (output_dir_state _ _ _ _ _ st Hd) as [-> _].
      repeat split; [apply emits_refl|done]. }
  destruct (output_dir_state _ _ _ _ _ st Hd) as [-> _].
  apply bind_inv in H as [([] & st1 & Hmk & H)|(e & Hmk & ->)].
  2:{ apply mkdir_parents_spec in Hmk as (Ho & Hc & Hkeep & _).
      repeat split; [done| |].
      - eexists. split; [done|]. by repeat constructor.
      - intros q [n Hn]. eauto. }
  apply mkdir_parents_spec in Hmk as (Ho & Hc & Hkeep & _).
  assert (Hq : forall q, is_Some (files st !! q) -> is_Some (files st1 !! q))
    by (intros q [n Hn]; eauto).
  assert (He : emits (fun e => is_writer e = true) st st1)
    by (eexists; split; [done|]; by repeat constructor).
  apply bind_inv in H as [(text & st2 & Ht & H)|(e & Ht & ->)].
  2:{ destruct (result_text result); [discriminate|]. injection Ht as _ <-.
      by repeat split. }
  destruct (result_text result); [|discriminate]. injection Ht as _ <-.
  assert (Hw : forall rw sw,
    write_text env (joinpath out_dir (transcript_name src)) (file_text text) st1
      = (rw, sw) ->
    stdout sw = stdout st1 /\ emits (fun e => is_writer e = true) st1 sw /\
    (forall q, is_Some (files st1 !! q) -> is_Some (files sw !! q))).
  { intros rw sw. rewrite write_text_eq. cbv zeta.
    repeat case_match; intros [= <- <-]; cbn [files stdout calls];
      (split; [done|]); (split; [eexists; split; [done|]; by repeat constructor|]);
      try done; intros q Hq'; rewrite lookup_insert; by case_decide. }
  apply bind_inv in H as [([] & st3 & Hwr & [= <- <-])|(e & Hwr & ->)];
    apply Hw in Hwr as (Ho3 & He3 & Hq3);
    (split; [congruence|]); (split; [by eapply emits_trans|]); auto.
Qed.

(** *** Cleanup *)

Lemma cleanup_eq (d : Path) st :
  cleanup env (Some d) st =
  (Ok tt,
   if bool_decide (is_Some (node_at (files st) d)) then
     mkState (if rmtree_fails env d then files st
              else filter (fun kv => ~ under d kv.1) (files st))
             (stdout st) (calls st ++ [Stat d; Rmtree d])
   else mkState (files st) (stdout st) (calls st ++ [Stat d])).
Proof.
  unfold cleanup, path_exists, try_except, rmtree.
  unfold bind, log, get_files, set_files, raise, ret.
  cbn [files stdout calls].
  destruct (bool_decide _); [|done].
  destruct (rmtree_fails env d); cbn [is_Exception files stdout calls];
    by rewrite <- app_assoc.
Qed.

Lemma cleanup_spec (tmp : option Path) st r st' :
  cleanup env tmp st = (r, st') ->
  r = Ok tt /\ stdout st' = stdout st /\
  emits (fun e => is_cleanup e = true) st st' /\
  (forall d, tmp = Some d -> is_Some (files st !! d) ->
     Rmtree d ∈ calls st' /\
     (rmtree_fails env d = false ->
      forall q, under d q -> files st' !! q = None)).
Proof.
  destruct tmp as [d|].
  - rewrite cleanup_eq. intros [= <- <-]. split; [done|].
    destruct (bool_decide_reflect (is_Some (node_at (files st) d))) as [Hex|Hno];
      cbn [files stdout calls]; (split; [done|]);
      (split; [eexists; split; [done|]; by repeat constructor|]).
    + intros ? [= <-] _. split.
      { apply elem_of_app. right. apply elem_of_cons. right. by left. }
      intros -> q Hq. apply map_lookup_filter_None. right.
      intros x _ Hx. by apply Hx.
    + intros ? [= <-] Hd. exfalso. apply Hno. unfold node_at.
      by destruct (parts d).
  - intros [= <- <-]. repeat split; [apply emits_refl|discriminate..].
Qed.

End Stages.

(** ** The whole run *)

Section Run.

Variable env : Env.
Variable args : Args.

(** [main] stage by stage: the first stage that raises ends the run. *)
Lemma main_inv st r st' :
  main env args st = (r, st') ->
  exists r1 s1, resolve_input env args st = (r1, s1) /\
  match r1 with
  | Raise e => r = Raise e /\ st' = s1
  | Ok src =>
  exists r2 s2, import_engine env s1 = (r2, s2) /\
  match r2 with
  | Raise e => r = Raise e /\ st' = s2
  | Ok _ =>
  exists r3 s3, prepare_media env args src s2 = (r3, s3) /\
  match r3 with
  | Raise e => r = Raise e /\ st' = s3
  | Ok prepared => main_tail env args src prepared s3 = (r, st')
  end end end.
Proof.
  unfold main, main_tail, bind, print. cbv zeta. intros H.
  destruct (resolve_input env args st) as [[src|e] s1]; eexists _, _;
    (split; [reflexivity|]); cbv beta iota; [|by injection H as <- <-].
  destruct (import_engine env s1) as [[[]|e] s2]; eexists _, _;
    (split; [reflexivity|]); cbv beta iota; [|by injection H as <- <-].
  destruct (prepare_media env args src s2) as [[prepared|e] s3]; eexists _, _;
    (split; [reflexivity|]); cbv beta iota; [|by injection H as <- <-].
  exact H.
Qed.

Lemma main_tail_inv (src : Path) (prepared : Path * option Path) st r st' :
  main_tail env args src prepared st = (r, st') ->
  exists r4 s4,
    run_whisper env args (resolve_device env args) prepared.1 st = (r4, s4) /\
  match r4 with
  | Raise e => r = Raise e /\ st' = s4
  | Ok result =>
  exists r5 s5, save_transcript env args src result s4 = (r5, s5) /\
  match r5 with
  | Raise e => r = Raise e /\ st' = s5
  | Ok out_txt =>
      cleanup env prepared.2
        (mkState (files s5) (stdout s5 ++ [saved_to out_txt]) (calls s5))
      = (r, st')
  end end.
Proof.
  unfold main_tail, bind, print. intros H.
  destruct (run_whisper _ _ _ _ st) as [[result|e] s4]; eexists _, _;
    (split; [reflexivity|]); cbv beta iota; [|by injection H as <- <-].
  destruct (save_transcript _ _ _ _ s4) as [[out_txt|e] s5]; eexists _, _;
    (split; [reflexivity|]); cbv beta iota; [|by injection H as <- <-].
  exact H.
Qed.

Lemma main_tail_emits (src : Path) (prepared : Path * option Path) st r st' :
  main_tail env args src prepared st = (r, st') -> emits late st st'.
Proof.
  intros H. apply main_tail_inv in H as (r4 & s4 & H4 & H).
  apply run_whisper_spec in H4 as (_ & _ & E4).
  apply (emits_weaken _ late) in E4; [|by left].
  destruct r4 as [result|]; [|by destruct H as [_ ->]].
  destruct H as (r5 & s5 & H5 & H).
  apply save_transcript_frame in H5 as (_ & E5 & _).
  apply (emits_weaken _ late) in E5; [|intros e He; right; left; exact He].
  pose proof (emits_trans _ _ _ _ E4 E5) as E45.
  destruct r5 as [out_txt|]; [|by destruct H as [_ ->]].
  apply cleanup_spec in H as (_ & _ & E6 & _).
  apply (emits_weaken _ late) in E6; [|intros e He; right; right; exact He].
  destruct E45 as (evs & Hevs & Fevs), E6 as (evs' & Hevs' & Fevs').
  exists (evs ++ evs'). cbn [calls] in Hevs'.
  split; [by rewrite Hevs', Hevs, app_assoc|by apply Forall_app].
Qed.

Lemma run_inv st o st' :
  run env args st = (o, st') ->
  exists r, main env args st = (r, st') /\ o = outcome_of r.
Proof.
  unfold run. destruct (main env args st) as [r s]. intros [= <- <-]. eauto.
Qed.

Lemma run_Returned st st' :
  run env args st = (Returned, st') -> main env args st = (Ok tt, st').
Proof.
  intros H. apply run_inv in H as (r & Hm & Ho). rewrite Hm. f_equal.
  destruct r as [[]|[]]; by try discriminate.
Qed.

Lemma emits_elem (P : event -> Prop) st st' (ev : event) :
  emits P st st' -> ev ∈ calls st' -> ev ∈ calls st \/ P ev.
Proof.
  intros (evs & -> & HP) Hin. apply elem_of_app in Hin as [Hin|Hin]; [by left|].
  right. exact (proj1 (Forall_forall _ _) HP ev Hin).
Qed.

Lemma tool_ran_staged (src : Path) (track : Z) (tmpdir : Path) st st' :
  tool_ran env src track tmpdir st st' -> is_Some (files st' !! tmpdir).
Proof.
  intros (_ & _ & _ & ->).
  destruct (spawn env _).2.
  - rewrite lookup_insert. case_decide; [eauto|]. rewrite lookup_insert_eq. eauto.
  - rewrite lookup_insert_eq. eauto.
Qed.

End Run.

(** ** Claims *)

(** C1, as amended.  When a run that staged a temporary directory [d]
    returns normally, and the removal of [d] itself does not fail, then
    neither [d] nor anything below it exists once the process has ended. *)
Theorem staged_dir_removed_on_success (env : Env) (args : Args)
  (fs : gmap Path node) (st' : state) (d : Path) :
  run env args (start fs) = (Returned, st') ->
  Mkdtemp d ∈ calls st' ->
  rmtree_fails env d = false ->
  forall q, under d q -> files st' !! q = None.
Proof.
  intros Hrun Hev Hrm.
  apply run_Returned, main_inv in Hrun
    as (r1 & s1 & H1 & Hrun).
  destruct r1 as [src|]; [|by destruct Hrun].
  destruct Hrun as (r2 & s2 & H2 & Hrun).
  destruct r2 as [[]|]; [|by destruct Hrun].
  destruct Hrun as (r3 & s3 & H3 & Hrun).
  destruct r3 as [prepared|]; [|by destruct Hrun].
  apply main_tail_inv in Hrun as (r4 & s4 & H4 & Hrun).
  destruct r4 as [result|]; [|by destruct Hrun].
  destruct Hrun as (r5 & s5 & H5 & Hrun).
  destruct r5 as [out_txt|]; [|by destruct Hrun].
  apply resolve_input_spec in H1 as (_ & _ & E1 & _).
  apply import_engine_spec in H2 as (_ & _ & E2 & _).
  apply run_whisper_spec in H4 as (F4 & _ & E4).
  apply save_transcript_frame in H5 as (_ & E5 & F5).
  apply cleanup_spec in Hrun as (_ & _ & E6 & Hclean).
  (* where the staging event comes from *)
  assert (Hin3 : Mkdtemp d ∈ calls s3).
  { destruct (emits_elem _ _ _ _ E6 Hev) as [Hev6|]; [|done].
    cbn [calls] in Hev6.
    destruct (emits_elem _ _ _ _ E5 Hev6) as [Hev5|]; [|done].
    by destruct (emits_elem _ _ _ _ E4 Hev5) as [Hev4|]. }
  assert (Hout : Mkdtemp d ∉ calls s2).
  { intros Hin.
    destruct (emits_elem _ _ _ _ E2 Hin) as [Hin2|]; [|done].
    destruct (emits_elem _ _ _ _ E1 Hin2) as [Hin1|]; [|done].
    by apply elem_of_nil in Hin1. }
  apply prepare_media_spec in H3.
  destruct (audio_track args) as [track|].
  2:{ destruct H3 as [_ ->]. contradiction. }
  destruct H3 as [([[_ [=]]|[_ [w [=]]]] & _)|(_ & tmpdir & Hran & Hr)].
  cbv zeta in Hr. destruct (_ =? 0)%Z; [|discriminate].
  injection Hr as ->. cbn [fst snd] in *.
  pose proof (tool_ran_staged _ _ _ _ _ _ Hran) as Hstaged.
  destruct Hran as (_ & _ & Hcalls & _).
  rewrite Hcalls in Hin3. apply elem_of_app in Hin3 as [?|Hin3]; [contradiction|].
  assert (d = tmpdir) as ->.
  { repeat (apply elem_of_cons in Hin3 as [Hin3|Hin3]; [try discriminate|]).
    - by injection Hin3.
    - by apply elem_of_nil in Hin3. }
  destruct (Hclean tmpdir eq_refl) as [_ Hgone].
  { cbn [files]. apply F5. by rewrite F4. }
  by apply Hgone.
Qed.



(** *** Independence from the outcome of the removal *)

Section RemovalIrrelevant.

Variable env : Env.
Variable f : Path -> bool.








Lemma prepare_media_stdout (args : Args) (src : Path) st r st' :
  prepare_media env args src st = (r, st') -> stdout st' = stdout st.
Proof.
  intros H. apply prepare_media_spec in H.
  destruct (audio_track args) as [track|]; [|by destruct H as [_ ->]].
  destruct H as [(_ & _ & Ho & _)|(_ & tmpdir & (_ & Ho & _) & _)]; exact Ho.
Qed.


End RemovalIrrelevant.


(** *** The transcript writer *)


Lemma result_text_missing (result : gmap str value) :
  result !! lit "text" = None -> result_text result = Ok [].
Proof. unfold result_text. by intros ->. Qed.

Lemma node_at_insert_ne (fs : gmap Path node) (p q : Path) (n : node) :
  p <> q -> node_at (<[p := n]> fs) q = node_at fs q.
Proof.
  intros Hne. unfold node_at. destruct (parts q); [done|].
  by rewrite lookup_insert_ne.
Qed.

(** Plain ASCII text is stored as it is. *)
Lemma encode_utf8_ascii (s : str) :
  Forall (fun c => c < 0x80) s -> encode_utf8 s = Some s.
Proof.
  induction 1 as [|c s Hc _ IH]; simpl; [done|].
  unfold utf8_char. apply N.ltb_lt in Hc. by rewrite Hc, IH.
Qed.


(** C8.  Writing the same result for the same source a second time
    succeeds, leaves the same bytes at the same path and changes nothing
    else: the file is replaced, whatever it held before the first write. *)
Theorem write_is_idempotent (env : Env) (args : Args) (src : Path)
  (result : gmap str value) (st : state) (out : Path) (st1 : state) :
  save_transcript env args src result st = (Ok out, st1) ->
  exists st2 text content,
    save_transcript env args src result st1 = (Ok out, st2) /\
    result_text result = Ok text /\
    encode_utf8 (file_text text) = Some content /\
    files st1 !! out = Some (File content) /\
    files st2 !! out = Some (File content) /\
    files st2 = files st1.
Proof.
  intros Hsave.
  apply save_transcript_ok_inv in Hsave
    as (out_dir & s & text & content & Hd & Hmk & -> & Htext & Henc
        & Hpar & Hout & Hopen & ->).
  set (out := joinpath out_dir (transcript_name src)) in *.
  set (st1 := mkState (<[out := File content]> (files s)) (stdout s)
                      (calls s ++ [OpenW out])).
  assert (Hparts : exists x xs, parts out = x :: xs).
  { destruct (parts out) as [|x xs] eqn:E; [|eauto].
    exfalso. apply Hout. unfold node_at. by rewrite E. }
  assert (Hdirs : forall q, node_at (files s) q = Some Dir ->
                            node_at (files st1) q = Some Dir).
  { intros q Hq. cbn [files st1]. rewrite node_at_insert_ne; [done|].
    intros <-. contradiction. }
  apply mkdir_parents_spec in Hmk as (_ & _ & _ & Hall).
  destruct (Hall eq_refl) as [_ Hanc].
  assert (Hmk1 : mkdir_parents env out_dir st1 =
                 (Ok tt, mkState (files st1) (stdout st1)
                                 (calls st1 ++ [Mkdir out_dir]))).
  { unfold mkdir_parents, bind at 1, log at 1.
    apply mkdir_chain_idem. cbn [files].
    eapply Forall_impl; [exact Hanc|]. exact Hdirs. }
  destruct (output_dir_state _ _ _ _ _ _ st1 Hd) as [_ Hd1].
  assert (Hlook : files st1 !! out = Some (File content))
    by (cbn [files st1]; apply lookup_insert_eq).
  eexists _, text, content. split.
  { apply (save_transcript_ok env args src result st1 out_dir _ text content
             Hd1 Hmk1 Htext Henc).
    - cbn [files]. by apply Hdirs.
    - cbn [files]. fold out. unfold node_at. destruct Hparts as (x & xs & ->).
      rewrite Hlook. discriminate.
    - exact Hopen. }
  fold out. cbn [files]. rewrite lookup_insert_eq.
  repeat split; try done.
  cbn [files st1]. apply insert_insert_eq.
Qed.

(** C10.  A result without a ["text"] entry is written as empty text: when
    the output directory exists or can be created and the file can be
    opened, the write succeeds and leaves an empty file at the derived
    path. *)
Theorem missing_text_gives_empty_file (env : Env) (args : Args) (src : Path)
  (result : gmap str value) (st : state) (out_dir : Path) (st1 : state) :
  result !! lit "text" = None ->
  wf_path src ->
  output_dir env args src st = (Ok out_dir, st) ->
  mkdir_parents env out_dir st = (Ok tt, st1) ->
  node_at (files st1) (joinpath out_dir (transcript_name src)) <> Some Dir ->
  open_refused env (joinpath out_dir (transcript_name src)) = false ->
  exists st',
    save_transcript env args src result st =
      (Ok (joinpath out_dir (transcript_name src)), st') /\
    files st' !! joinpath out_dir (transcript_name src) = Some (File []) /\
    joinpath out_dir (transcript_name src) =
      mkPath (root out_dir) (parts out_dir ++ [stem src ++ lit "_transcript.txt"]).
Proof.
  intros Hmissing Hwf Hd Hmk Hout Hopen.
  destruct (transcript_name_simple src Hwf) as (Hsep & Hne & Hdot).
  pose proof (joinpath_name out_dir _ Hsep Hne Hdot) as Hjoin.
  eexists. split; [|split; [|exact Hjoin]].
  - eapply (save_transcript_ok env args src result st out_dir st1 [] []); eauto.
    + by apply result_text_missing.
    + rewrite Hjoin, parent_snoc.
      apply mkdir_parents_spec in Hmk as (_ & _ & _ & Hall).
      destruct (Hall eq_refl) as [Hdir _]. by destruct out_dir.
  - cbn [files]. apply lookup_insert_eq.
Qed.

(** C6, as amended.  The transcript goes to [out_dir / (stem ++
    "_transcript.txt")], where [out_dir] is the [--outdir] argument (with a
    leading tilde expanded) when that argument is a non-empty string and
    the parent of the source otherwise, and the stem is the name of the
    source without its suffix. *)
Theorem transcript_path (env : Env) (args : Args) (src : Path)
  (result : gmap str value) (st : state) (out : Path) (st' : state) :
  wf_path src ->
  save_transcript env args src result st = (Ok out, st') ->
  exists out_dir,
    match outdir args with
    | Some (c :: o) => expanduser env (of_str (c :: o)) st = (Ok out_dir, st)
    | Some [] | None => out_dir = parent src
    end /\
    out = mkPath (root out_dir)
                 (parts out_dir ++ [stem src ++ lit "_transcript.txt"]) /\
    name src = stem src ++ suffix src /\
    exists content, files st' !! out = Some (File content).
Proof.
  intros Hwf Hsave.
  apply save_transcript_ok_inv in Hsave
    as (out_dir & st1 & text & content & Hd & _ & -> & _ & _ & _ & _ & _ & ->).
  destruct (transcript_name_simple src Hwf) as (Hsep & Hne & Hdot).
  exists out_dir. split; [|split; [|split]].
  - unfold output_dir, if_truthy in Hd.
    destruct (outdir args) as [[|c o]|]; cbn in Hd; by try injection Hd as <-.
  - by apply joinpath_name.
  - apply stem_suffix.
  - exists content. cbn [files]. apply lookup_insert_eq.
Qed.

(** C4, as amended.  A non-empty [--device] argument is returned as it is,
    whatever the accelerator probe says; without the argument, or with an
    empty one, the answer is ["cuda"] when the probe reports an accelerator
    and ["cpu"] otherwise. *)
Theorem resolve_device_precedence (env : Env) (args : Args) :
  (forall d, device args = Some d -> d <> [] -> resolve_device env args = d) /\
  (device args = None \/ device args = Some [] ->
   resolve_device env args =
     if cuda_is_available env then lit "cuda" else lit "cpu").
Proof.
  unfold resolve_device, if_truthy. split.
  - intros d -> Hd. by destruct d.
  - by intros [-> | ->].
Qed.

(** *** The extractor *)

Lemma to_string_lit (s : string) : to_string (lit s) = s.
Proof.
  unfold to_string, lit. rewrite map_map.
  rewrite (map_ext _ id), map_id; [apply string_of_list_ascii_of_string|].
  intros a. apply ascii_N_embedding.
Qed.

Lemma index_of_int (z : Z) : index_of (of_int z) = Some z.
Proof.
  unfold index_of, of_int.
  rewrite to_string_lit, NilEmpty.isi. simpl. f_equal. apply DecimalZ.of_to.
Qed.

Lemma uint_digits (d : Decimal.uint) :
  Forall (fun c => isdigit c = true) (lit (NilEmpty.string_of_uint d)).
Proof. induction d; simpl; by constructor. Qed.

Lemma of_int_digits (z : Z) :
  (0 <= z)%Z -> Forall (fun c => isdigit c = true) (of_int z).
Proof.
  intros Hz. unfold of_int. destruct z as [|p|p]; [..|lia]; apply uint_digits.
Qed.

(** C5.  For a non-negative track index, whenever FFmpeg is found and a
    temporary directory could be made, the extractor runs exactly one
    command: [ffmpeg], with the banner hidden and the log level at
    [error], [-y] to overwrite, the source as input, [-vn] to drop video,
    [-map 0:a:<index>] selecting among the audio streams, 16-bit PCM at
    16 kHz on one channel, and [audio_track.wav] inside a directory that
    did not exist before as destination. *)
Theorem extraction_command (env : Env) (src : Path) (track : Z)
  (st : state) (r : res Path) (st' : state) :
  (0 <= track)%Z ->
  extract_track_to_wav env src track st = (r, st') ->
  is_Some (which env (lit "ffmpeg")) ->
  (forall what, r <> Raise (OSError what)) ->
  exists tmpdir,
    node_at (files st) tmpdir = None /\
    is_Some (files st' !! tmpdir) /\
    calls st' = calls st ++
      [ Which (lit "ffmpeg"); Mkdtemp tmpdir;
        Run [ lit "ffmpeg"; lit "-hide_banner"; lit "-loglevel"; lit "error";
              lit "-y"; lit "-i"; to_str src; lit "-vn";
              lit "-map"; lit "0:a:" ++ of_int track;
              lit "-acodec"; lit "pcm_s16le"; lit "-ar"; lit "16000";
              lit "-ac"; lit "1";
              to_str (mkPath (root tmpdir)
                             (parts tmpdir ++ [lit "audio_track.wav"])) ] ] /\
    Forall (fun c => isdigit c = true) (of_int track) /\
    index_of (of_int track) = Some track.
Proof.
  intros Htrack Hx [w Hw] Hr.
  apply extract_track_to_wav_spec in Hx
    as [([[Hno _]|[_ [what ->]]] & _)|(_ & tmpdir & Hran & _)].
  - congruence.
  - by destruct (Hr what).
  - exists tmpdir. pose proof (tool_ran_staged _ _ _ _ _ _ Hran) as Hst.
    destruct Hran as (Hfresh & _ & Hcalls & _).
    repeat split; try done.
    + by apply of_int_digits.
    + apply index_of_int.
Qed.

(** ** The claims on concrete runs *)

(** A pair is known from its first component. *)
Lemma pair_from_fst {A B : Type} (p : A * B) (a : A) :
  p.1 = a -> p = (a, p.2).
Proof. destruct p. by intros <-. Qed.

Ltac by_compute := vm_compute; reflexivity.
Ltac by_fst := apply pair_from_fst; vm_compute; reflexivity.
Ltac decide_compute :=
  match goal with
  | |- ?P => apply (bool_decide_unpack P); vm_compute; exact I
  end.

(** C1, counterexample.  With [--audio-track 1], when the tool exits with
    status 1, and also when the engine fails after a successful extraction,
    the process ends with status 1 and the staged directory is still
    there. *)
Lemma staged_dir_left_behind :
  let failed_extraction := run Demo.tool_fails Demo.track1 (start Demo.fs) in
  let failed_inference := run Demo.engine_fails Demo.track1 (start Demo.fs) in
  (exit_status failed_extraction.1 = 1%Z /\
   Mkdtemp Demo.tmp ∈ calls failed_extraction.2 /\
   files failed_extraction.2 !! Demo.tmp = Some Dir) /\
  (exit_status failed_inference.1 = 1%Z /\
   Mkdtemp Demo.tmp ∈ calls failed_inference.2 /\
   files failed_inference.2 !! Demo.tmp = Some Dir /\
   files failed_inference.2 !! wav_in Demo.tmp = Some (File [82; 73; 70; 70])) /\
  ~ staged_dir_always_removed Demo.tool_fails Demo.track1 Demo.fs /\
  ~ staged_dir_always_removed Demo.engine_fails Demo.track1 Demo.fs.
Proof.
  cbv zeta.
  assert (Hthere1 : files (run Demo.tool_fails Demo.track1 (start Demo.fs)).2
                      !! Demo.tmp = Some Dir) by by_compute.
  assert (Hthere2 : files (run Demo.engine_fails Demo.track1 (start Demo.fs)).2
                      !! Demo.tmp = Some Dir) by by_compute.
  split; [|split; [|split]].
  - split; [by_compute|]. split; [decide_compute|exact Hthere1].
  - split; [by_compute|]. split; [decide_compute|]. split; [exact Hthere2|by_compute].
  - intros H.
    specialize (H Demo.tmp ltac:(decide_compute) Demo.tmp ltac:(decide_compute)).
    rewrite Hthere1 in H. discriminate.
  - intros H.
    specialize (H Demo.tmp ltac:(decide_compute) Demo.tmp ltac:(decide_compute)).
    rewrite Hthere2 in H. discriminate.
Qed.

(** C1, witness: after the healthy run with [--audio-track 1] neither the
    staged directory nor the extracted file exists. *)
Lemma staged_dir_removed_demo :
  files (run Demo.healthy Demo.track1 (start Demo.fs)).2 !! Demo.tmp = None /\
  files (run Demo.healthy Demo.track1 (start Demo.fs)).2 !! wav_in Demo.tmp = None.
Proof.
  pose proof (staged_dir_removed_on_success Demo.healthy Demo.track1 Demo.fs
    (run Demo.healthy Demo.track1 (start Demo.fs)).2 Demo.tmp
    ltac:(by_fst) ltac:(decide_compute) eq_refl) as H.
  split; apply H; decide_compute.
Defined.


(** The three cases the specification lists, and its scenario. *)
Example transcript_of_hello :
  files (save_transcript Demo.healthy Demo.track1 Demo.multi
           (Demo.said (lit "hello")) (start Demo.fs)).2
    !! of_str (lit "/media/multi_transcript.txt")
  = Some (File (lit "hello" ++ newline)).
Proof. by_compute. Qed.

Example transcript_of_empty_text :
  files (save_transcript Demo.healthy Demo.track1 Demo.multi
           (Demo.said []) (start Demo.fs)).2
    !! of_str (lit "/media/multi_transcript.txt")
  = Some (File []).
Proof. by_compute. Qed.

Example transcript_of_padded_text :
  files (run Demo.healthy (Demo.args "/media/multi.mkv" None None None)
           (start Demo.fs)).2
    !! of_str (lit "/media/multi_transcript.txt")
  = Some (File (lit "Hi there." ++ newline)).
Proof. by_compute. Qed.


(** C4, counterexample: [--device ""] on a machine with an accelerator
    resolves to ["cuda"]. *)
Lemma empty_device_is_ignored :
  device (Demo.args "/media/multi.mkv" None None (Some [])) = Some [] /\
  resolve_device Demo.healthy (Demo.args "/media/multi.mkv" None None (Some []))
    = lit "cuda" /\
  ~ device_override_verbatim Demo.healthy
      (Demo.args "/media/multi.mkv" None None (Some [])).
Proof.
  split; [reflexivity|]. split; [reflexivity|].
  intros H. specialize (H [] eq_refl). discriminate H.
Qed.

(** C4, witness: [--device cpu] on a machine with an accelerator. *)
Lemma explicit_cpu_demo :
  cuda_is_available Demo.healthy = true /\
  resolve_device Demo.healthy
    (Demo.args "/media/multi.mkv" None None (Some (lit "cpu"))) = lit "cpu".
Proof.
  split; [reflexivity|].
  apply (proj1 (resolve_device_precedence Demo.healthy
           (Demo.args "/media/multi.mkv" None None (Some (lit "cpu")))));
    [reflexivity|discriminate].
Defined.

(** C5, witness: the healthy extraction of track 1. *)
Lemma extraction_command_demo :
  exists tmpdir,
    node_at Demo.fs tmpdir = None /\
    is_Some (files (extract_track_to_wav Demo.healthy Demo.multi 1
                      (start Demo.fs)).2 !! tmpdir) /\
    index_of (of_int 1) = Some 1%Z.
Proof.
  destruct (extraction_command Demo.healthy Demo.multi 1 (start Demo.fs)
              (Ok (wav_in Demo.tmp))
              (extract_track_to_wav Demo.healthy Demo.multi 1 (start Demo.fs)).2
              ltac:(lia) ltac:(by_fst) ltac:(by eexists)
              ltac:(discriminate))
    as (tmpdir & Hfresh & Hstaged & _ & _ & Hindex).
  exists tmpdir. split; [exact Hfresh|]. split; [exact Hstaged|exact Hindex].
Defined.

(** C6, counterexample: with [--outdir ""] the transcript is written next
    to the source, not into the directory the empty string denotes. *)
Lemma empty_outdir_is_ignored :
  let args := Demo.args "/videos/clip.mkv" None (Some []) None in
  let written := save_transcript Demo.healthy args Demo.clip
                   (Demo.said (lit "hello")) (start Demo.fs) in
  outdir args = Some [] /\
  written.1 = Ok (of_str (lit "/videos/clip_transcript.txt")) /\
  joinpath (of_str []) (transcript_name Demo.clip)
    = of_str (lit "clip_transcript.txt") /\
  ~ explicit_outdir_used Demo.healthy args Demo.clip
      (Demo.said (lit "hello")) (start Demo.fs).
Proof.
  cbv zeta. split; [reflexivity|]. split; [by_compute|]. split; [by_compute|].
  intros H.
  destruct (H [] (of_str (lit "/videos/clip_transcript.txt"))
              (save_transcript Demo.healthy
                 (Demo.args "/videos/clip.mkv" None (Some []) None) Demo.clip
                 (Demo.said (lit "hello")) (start Demo.fs)).2
              eq_refl ltac:(by_fst)) as (d & Hd & Hout).
  assert (E : (expanduser Demo.healthy (of_str []) (start Demo.fs)).1
              = Ok (mkPath [] [])) by by_compute.
  rewrite Hd in E. injection E as ->.
  revert Hout. decide_compute.
Qed.

(** C6, witness: [clip.mkv] without [--outdir]. *)
Lemma clip_transcript_path :
  exists out_dir,
    out_dir = parent Demo.clip /\
    of_str (lit "/videos/clip_transcript.txt")
      = mkPath (root out_dir)
               (parts out_dir ++ [stem Demo.clip ++ lit "_transcript.txt"]) /\
    stem Demo.clip = lit "clip".
Proof.
  destruct (transcript_path Demo.healthy
              (Demo.args "/videos/clip.mkv" None None None) Demo.clip
              (Demo.said (lit "hello")) (start Demo.fs)
              (of_str (lit "/videos/clip_transcript.txt"))
              (save_transcript Demo.healthy
                 (Demo.args "/videos/clip.mkv" None None None) Demo.clip
                 (Demo.said (lit "hello")) (start Demo.fs)).2
              (of_str_wf _) ltac:(by_fst))
    as (out_dir & Hdir & Hout & _).
  exists out_dir. split; [exact Hdir|]. split; [exact Hout|by_compute].
Defined.



(** C8, witness: the healthy write, twice. *)
Lemma write_twice_demo :
  let once := save_transcript Demo.healthy Demo.track1 Demo.multi
                (Demo.said (lit "hello")) (start Demo.fs) in
  let twice := save_transcript Demo.healthy Demo.track1 Demo.multi
                 (Demo.said (lit "hello")) once.2 in
  twice.1 = Ok (of_str (lit "/media/multi_transcript.txt")) /\
  files twice.2 = files once.2.
Proof.
  cbv zeta.
  destruct (write_is_idempotent Demo.healthy Demo.track1 Demo.multi
              (Demo.said (lit "hello")) (start Demo.fs)
              (of_str (lit "/media/multi_transcript.txt"))
              (save_transcript Demo.healthy Demo.track1 Demo.multi
                 (Demo.said (lit "hello")) (start Demo.fs)).2
              ltac:(by_fst))
    as (st2 & text & content & Hagain & _ & _ & _ & _ & Hsame).
  rewrite Hagain. split; [reflexivity|exact Hsame].
Defined.


(** C10, witness: a result that has segments and a language but no text. *)
Lemma missing_text_demo :
  exists st',
    save_transcript Demo.healthy Demo.track1 Demo.multi
      Demo.no_text (start Demo.fs)
    = (Ok (joinpath (parent Demo.multi) (transcript_name Demo.multi)), st') /\
    files st' !! joinpath (parent Demo.multi) (transcript_name Demo.multi)
    = Some (File []).
Proof.
  destruct (missing_text_gives_empty_file Demo.healthy Demo.track1 Demo.multi
              Demo.no_text (start Demo.fs)
              (parent Demo.multi)
              (mkdir_parents Demo.healthy (parent Demo.multi) (start Demo.fs)).2
              ltac:(by_compute) (of_str_wf _) ltac:(by_fst)
              ltac:(by_fst) ltac:(decide_compute)
              ltac:(by_compute))
    as (st' & Hsave & Hfile & _).
  exists st'. split; [exact Hsave|exact Hfile].
Defined.

(** * Further properties of the program *)

(** ** Paths and their strings *)

Section PathStrings.

Lemma split_app_sep (x rest : str) :
  sep ∉ x -> split sep (x ++ sep :: rest) = x :: split sep rest.
Proof.
  induction x as [|c x IH]; simpl.
  - done.
  - rewrite not_elem_of_cons. intros [Hc Hx].
    destruct (N.eqb_spec c sep) as [|_]; [congruence|].
    by rewrite (IH Hx).
Qed.

Lemma split_join (l : list str) :
  Forall (fun x => sep ∉ x) l -> l <> [] -> split sep (join [sep] l) = l.
Proof.
  induction 1 as [|x l Hx Hl IH]; [done|]. intros _.
  destruct l as [|y l].
  - simpl. by apply split_single.
  - change (join [sep] (x :: y :: l)) with (x ++ sep :: join [sep] (y :: l)).
    rewrite (split_app_sep _ _ Hx). f_equal. by apply IH.
Qed.

Lemma join_head (l : list str) (c : N) :
  Forall (fun x => (sep ∉ x) /\ x <> [] /\ x <> lit ".") l ->
  head (join [sep] l) = Some c -> c <> sep.
Proof.
  intros Hl. destruct Hl as [|x l (Hsep & Hne & _) _]; [discriminate|].
  destruct x as [|a x]; [done|].
  assert (head (join [sep] ((a :: x) :: l)) = Some a) as -> by by destruct l.
  intros [= <-] ->. apply Hsep. left.
Qed.

Lemma startswith_sep (s : str) :
  startswith s [sep] = true <-> head s = Some sep.
Proof.
  destruct s as [|a s]; simpl; [split; discriminate|].
  destruct (N.eqb_spec a sep) as [->|Hne]; simpl.
  - split; [done|]. intros _. by destruct s.
  - split; [discriminate|]. by intros [= ->].
Qed.

Lemma join_not_rooted (l : list str) :
  Forall (fun x => (sep ∉ x) /\ x <> [] /\ x <> lit ".") l ->
  startswith (join [sep] l) [sep] = false.
Proof.
  intros Hl. destruct (startswith _ _) eqn:E; [|done].
  apply startswith_sep in E. by destruct (join_head l sep Hl E).
Qed.

Lemma filter_all (l : list str) :
  Forall (fun x => (sep ∉ x) /\ x <> [] /\ x <> lit ".") l ->
  filter (fun x => x <> [] /\ x <> lit ".") l = l.
Proof.
  induction 1 as [|y l (_ & Hy) _ IH]; [done|].
  rewrite filter_cons_True by done. f_equal. exact IH.
Qed.

Lemma parts_of_join (l : list str) :
  Forall (fun x => (sep ∉ x) /\ x <> [] /\ x <> lit ".") l ->
  filter (fun x => x <> [] /\ x <> lit ".") (split sep (join [sep] l)) = l.
Proof.
  intros Hl. destruct l as [|x l]; [done|].
  rewrite split_join; [|eapply Forall_impl; [exact Hl|]; by intros ? (? & _)|done].
  by apply filter_all.
Qed.

Lemma of_str_normal (s : str) : normal_path (of_str s).
Proof.
  unfold normal_path, of_str, splitroot. split.
  - destruct (startswith s [sep]) eqn:E1; simpl; [|by left].
    destruct (negb _ || _) eqn:E2; simpl; [right; by left|].
    right; right.
    apply orb_false_elim in E2 as [E2 _]. apply negb_false_iff in E2.
    apply startswith_sep in E1, E2.
    destruct s as [|a [|b s]]; try discriminate.
    by injection E1 as ->; injection E2 as ->.
  - destruct (if negb _ then _ else _) as [r rel]. simpl.
    apply Forall_forall. intros x Hx.
    apply list_elem_of_filter in Hx as [[Hne Hdot] Hx].
    split; [|done].
    exact (proj1 (Forall_forall _ _) (split_no_sep rel) x Hx).
Qed.

Lemma normal_wf (p : Path) : normal_path p -> wf_path p.
Proof.
  intros [_ H]. unfold wf_path. eapply Forall_impl; [exact H|]. by intros ? (? & _).
Qed.

Lemma splitroot_none (rel : str) :
  startswith rel [sep] = false -> splitroot rel = ([], rel).
Proof. unfold splitroot. by intros ->. Qed.

Lemma splitroot_one (rel : str) :
  startswith rel [sep] = false -> splitroot (sep :: rel) = ([sep], rel).
Proof.
  unfold splitroot. intros H.
  assert (startswith (sep :: rel) [sep] = true) as ->
    by (apply startswith_sep; done).
  cbn [negb drop]. rewrite drop_0. by rewrite H.
Qed.

Lemma splitroot_two (rel : str) :
  startswith rel [sep] = false ->
  splitroot (sep :: sep :: rel) = ([sep; sep], rel).
Proof.
  unfold splitroot. intros H.
  assert (startswith (sep :: sep :: rel) [sep] = true) as ->
    by (apply startswith_sep; done).
  assert (startswith (sep :: rel) [sep] = true) as Hone
    by (apply startswith_sep; done).
  cbn [negb drop take]. rewrite drop_0, Hone, H. done.
Qed.

End PathStrings.

(** Rendering a parsed path and parsing the string again gives the same
    path. *)
Lemma of_str_to_str_normal (p : Path) :
  normal_path p -> of_str (to_str p) = p.
Proof.
  destruct p as [r ps]. intros [Hroot Hparts]. cbn [root parts] in *.
  pose proof (parts_of_join ps Hparts) as Hfilter.
  pose proof (join_not_rooted ps Hparts) as Hrel.
  unfold to_str, of_str. cbn [root parts].
  destruct Hroot as [-> | [-> | ->]]; cbn [truthy].
  - destruct ps as [|x ps]; [by vm_compute|].
    by rewrite (splitroot_none _ Hrel), Hfilter.
  - change ([sep] ++ join [sep] ps) with (sep :: join [sep] ps).
    by rewrite (splitroot_one _ Hrel), Hfilter.
  - change ([sep; sep] ++ join [sep] ps) with (sep :: sep :: join [sep] ps).
    by rewrite (splitroot_two _ Hrel), Hfilter.
Qed.

Lemma parent_normal (p : Path) : normal_path p -> normal_path (parent p).
Proof.
  intros [Hroot Hparts]. unfold parent.
  destruct (parts p) as [|x xs] eqn:E; [split; [done|by rewrite E]|].
  split; [exact Hroot|]. cbn [parts].
  destruct (exists_last (l := x :: xs)) as (ys & y & Heq); [discriminate|].
  rewrite Heq in Hparts |- *.
  rewrite removelast_last. by apply Forall_app in Hparts as [H _].
Qed.

Lemma joinpath_normal (p : Path) (key : str) :
  normal_path p -> normal_path (joinpath p key).
Proof.
  intros [Hroot Hparts]. unfold joinpath.
  pose proof (of_str_normal key) as [Hr Hp].
  destruct (truthy (root (of_str key))); [by split|].
  split; [exact Hroot|]. cbn [parts]. apply Forall_app. by split.
Qed.

Lemma expanduser_normal (env : Env) (p q : Path) st st' :
  normal_path p -> expanduser env p st = (Ok q, st') -> normal_path q.
Proof.
  intros [Hroot Hparts]. unfold expanduser, ret, raise.
  destruct (root p) as [|c rt] eqn:Hr; [|intros [= <- _]; split; by rewrite ?Hr].
  destruct (parts p) as [|first rest] eqn:Hp;
    [intros [= <- _]; split; by rewrite ?Hr, ?Hp|].
  destruct (startswith first (lit "~"));
    [|intros [= <- _]; split; by rewrite ?Hr, ?Hp].
  destruct (startswith (os_expanduser env first) (lit "~")); [discriminate|].
  intros [= <- _].
  pose proof (of_str_normal (os_expanduser env first)) as [Hr' Hp'].
  split; [exact Hr'|]. cbn [parts]. apply Forall_app. split; [exact Hp'|].
  by inversion Hparts.
Qed.

(** X1.  Rendering a path and parsing the string again gives the same
    path: [Path(str(p)) == p] for every path the program builds, so the
    strings handed to FFmpeg, to Whisper and to the user denote the paths
    the program holds. *)
Theorem built_paths_round_trip (p : Path) :
  built p -> of_str (to_str p) = p.
Proof.
  intros Hb. apply of_str_to_str_normal.
  induction Hb as [s|p _ IH|p key _ IH|env p q st st' _ IH Hx].
  - apply of_str_normal.
  - by apply parent_normal.
  - by apply joinpath_normal.
  - by eapply expanduser_normal.
Qed.

(** ** What the stages leave alone *)

Section Frames.

Variable env : Env.

Lemma under_refl (p : Path) : under p p.
Proof. by split. Qed.

Lemma under_wav (tmpdir : Path) : under tmpdir (wav_in tmpdir).
Proof. split; [done|]. by apply prefix_app_r. Qed.

Lemma wav_in_normal (tmpdir : Path) :
  normal_path tmpdir -> normal_path (wav_in tmpdir).
Proof.
  intros [Hroot Hparts]. split; [exact Hroot|]. cbn [wav_in parts].
  apply Forall_app. split; [exact Hparts|]. constructor; [|constructor].
  split; [|split; discriminate].
  intros H. vm_compute in H.
  repeat (apply elem_of_cons in H as [H|H]; [discriminate|]).
  by apply elem_of_nil in H.
Qed.

(** The directory [mkdtemp] makes is a parsed path. *)
Lemma staged_dir_normal (src : Path) (track : Z) st r st' tmpdir cmd :
  extract_track_to_wav env src track st = (r, st') ->
  calls st' = calls st ++ [Which (lit "ffmpeg"); Mkdtemp tmpdir; Run cmd] ->
  normal_path tmpdir.
Proof.
  unfold extract_track_to_wav. unfold bind at 1. rewrite ensure_ffmpeg_eq.
  destruct (which env (lit "ffmpeg")) as [w|].
  - unfold bind at 1, mkdtemp.
    destruct (mkdtemp_from _ _ _ _) as [[d|e] st1] eqn:Hd;
      apply mkdtemp_from_spec in Hd as [(w' & Hr & Hst)|(file & Hr & _ & Hst)];
      try discriminate.
    + injection Hr as <-. subst st1.
      unfold bind at 1. rewrite subprocess_run_check_eq.
      cbn [files stdout calls]. intros H Hcalls.
      assert (calls st' = (calls st ++ [Which (lit "ffmpeg")]) ++
                [Mkdtemp (of_str d)] ++
                [Run (ffmpeg_cmd src (joinpath (of_str d) (lit "audio_track.wav"))
                        track)]) as Hc.
      { destruct (_ =? 0)%Z; injection H as _ <-; cbn [calls];
          by rewrite <- !app_assoc. }
      rewrite Hcalls, <- !app_assoc in Hc. apply app_inv_head in Hc.
      injection Hc as -> _. apply of_str_normal.
    + injection Hr as ->. subst st1. intros [= _ <-]. cbn [calls].
      intros Hc. apply app_inv_head in Hc. discriminate.
  - intros [= _ <-]. cbn [calls]. intros Hc. apply app_inv_head in Hc.
    discriminate.
Qed.

End Frames.

Lemma extract_changes (env : Env) (src : Path) (track : Z)
  (st : state) (r : res Path) (st' : state) (q : Path) :
  extract_track_to_wav env src track st = (r, st') ->
  files st' !! q <> files st !! q ->
  exists tmpdir cmd,
    calls st' = calls st ++ [Which (lit "ffmpeg"); Mkdtemp tmpdir; Run cmd] /\
    node_at (files st) tmpdir = None /\
    (q = tmpdir \/ q = wav_in tmpdir).
Proof.
  intros Hx Hq.
  pose proof (extract_track_to_wav_spec _ _ _ _ _ _ Hx)
    as [(_ & Hf & _)|(_ & tmpdir & Hran & _)]; [by rewrite Hf in Hq|].
  pose proof Hran as (Hfresh & _ & Hcalls & Hfiles).
  exists tmpdir, (ffmpeg_cmd src (wav_in tmpdir) track).
  split; [exact Hcalls|]. split; [exact Hfresh|].
  pose proof (staged_dir_normal _ _ _ _ _ _ _ _ Hx Hcalls) as Hnormal.
  rewrite (of_str_to_str_normal _ (wav_in_normal _ Hnormal)) in Hfiles.
  destruct (decide (q = wav_in tmpdir)) as [->|Hwav]; [by right|].
  destruct (decide (q = tmpdir)) as [->|Htmp]; [by left|].
  exfalso. apply Hq. rewrite Hfiles.
  destruct (spawn env _).2; by rewrite ?lookup_insert_ne.
Qed.

(** X2.  The extraction touches nothing outside the directory it stages:
    the only paths it creates or overwrites are that directory, which did
    not exist before, and [audio_track.wav] inside it. *)
Theorem extraction_stays_in_staged_dir (env : Env) (src : Path) (track : Z)
  (st : state) (r : res Path) (st' : state) (q : Path) :
  extract_track_to_wav env src track st = (r, st') ->
  files st' !! q <> files st !! q ->
  exists tmpdir,
    Mkdtemp tmpdir ∈ calls st' /\
    node_at (files st) tmpdir = None /\
    (q = tmpdir \/ q = wav_in tmpdir) /\
    under tmpdir q /\
    parent (wav_in tmpdir) = tmpdir.
Proof.
  intros Hx Hq.
  destruct (extract_changes _ _ _ _ _ _ _ Hx Hq)
    as (tmpdir & cmd & Hcalls & Hfresh & Hwhich).
  exists tmpdir. split; [|split; [exact Hfresh|split; [exact Hwhich|split]]].
  - rewrite Hcalls. apply elem_of_app. right. apply elem_of_cons. right. by left.
  - destruct Hwhich as [-> | ->]; [apply under_refl|apply under_wav].
  - apply parent_wav.
Qed.

Section WriterFrame.

Variable env : Env.




End WriterFrame.


Section RunFrame.

Variable env : Env.
Variable args : Args.


(** The state after [prepare_media] is the state after the extraction. *)
Lemma prepare_media_state (src : Path) (track : Z) st r st' :
  audio_track args = Some track ->
  prepare_media env args src st = (r, st') ->
  exists r0, extract_track_to_wav env src track st = (r0, st').
Proof.
  unfold prepare_media. intros ->. unfold try_except, bind at 1.
  destruct (extract_track_to_wav env src track st) as [[w|e] s] eqn:Hx.
  - intros [= _ <-]. eauto.
  - destruct e; intros [= _ <-]; eauto.
Qed.


End RunFrame.


(** ** Input resolution and imports *)

(** X5.  When there is nothing to transcribe the run ends at once with the
    message "No valid input file selected/provided." and status 1: whisper
    is not imported, FFmpeg is not looked for, no file is touched and
    nothing is printed. *)
Theorem invalid_input_is_fatal (env : Env) (args : Args)
  (fs : gmap Path node) :
  nothing_to_transcribe env args fs ->
  exists st',
    run env args (start fs) = (Exited no_valid_input, st') /\
    exit_status (run env args (start fs)).1 = 1%Z /\
    Forall (fun e => is_input_call e = true) (calls st') /\
    files st' = fs /\ stdout st' = [].
Proof.
  unfold nothing_to_transcribe. intros H.
  assert (Hres : exists st',
    resolve_input env args (start fs) = (Raise (SystemExit no_valid_input), st') /\
    Forall (fun e => is_input_call e = true) (calls st') /\
    files st' = fs /\ stdout st' = []).
  { unfold resolve_input.
    destruct (if_truthy (input args)) as [s|].
    - destruct H as (p & Hp & Hnone).
      rewrite (bind_ok _ _ _ _ _ (bind_ok _ _ _ _ _ Hp)).
      unfold path_exists, bind, log, get_files, ret, sys_exit, raise.
      cbn [files stdout calls start]. rewrite Hnone.
      rewrite bool_decide_eq_false_2 by (by intros [x Hx]).
      eexists. split; [reflexivity|]. by repeat constructor.
    - unfold pick_file_dialog, path_exists, bind, log, get_files, ret,
        sys_exit, raise.
      cbn [files stdout calls start].
      unfold if_truthy in H.
      destruct (askopenfilename env) as [f|];
        [destruct (truthy f)|]; cbv beta iota.
      + cbn [files]. rewrite H.
        rewrite bool_decide_eq_false_2 by (by intros [x Hx]).
        eexists. split; [reflexivity|]. by repeat constructor.
      + eexists. split; [reflexivity|]. by repeat constructor.
      + eexists. split; [reflexivity|]. by repeat constructor. }
  destruct Hres as (st' & Hr & Hrest).
  assert (Hrun : run env args (start fs) = (Exited no_valid_input, st')).
  { unfold run, main. by rewrite (bind_raise _ _ _ _ _ Hr). }
  exists st'. rewrite Hrun. by split.
Qed.

(** ** The engine *)

Section Engine.

Variable env : Env.
Variable args : Args.

Lemma run_whisper_eq (dev : str) (media : Path) st :
  run_whisper env args dev media st =
  match load_model env (model args) dev with
  | Some e =>
      (Raise e, mkState (files st) (stdout st)
                        (calls st ++ [LoadModel (model args) dev]))
  | None =>
      let heard := transcribe env (model args) dev (files st) (to_str media)
                     (language args) in
      (heard.2,
       mkState (files st) (stdout st ++ heard.1)
         (calls st ++ [LoadModel (model args) dev;
                       Transcribe (to_str media) (language args)]))
  end.
Proof.
  unfold run_whisper, bind, log, get_files, print_lines, lift, ret, raise.
  destruct (load_model env _ _); [done|].
  cbn [files stdout calls]. cbv zeta.
  destruct (transcribe env _ _ _ _ _) as [printed [result|e]];
    cbn [fst snd]; by rewrite <- app_assoc.
Qed.

Lemma prepare_media_emits (src : Path) st r st' :
  prepare_media env args src st = (r, st') ->
  emits (fun e => is_staging_call e = true) st st'.
Proof.
  intros H. apply prepare_media_spec in H.
  destruct (audio_track args) as [track|].
  - destruct H as [(_ & _ & _ & Hc)|(_ & tmpdir & (_ & _ & Hc & _) & _)];
      (eexists; split; [exact Hc|]; by repeat constructor).
  - destruct H as [_ ->]. apply emits_refl.
Qed.

(** The first three stages, when they all succeed. *)
Lemma main_head st r st' :
  main env args st = (r, st') ->
  (exists s0, emits early st s0 /\ files s0 = files st' /\
              stdout s0 = stdout st /\ st' = s0 /\
              exists e, r = Raise e) \/
  exists src s1 prepared s3,
    resolve_input env args st = (Ok src, s1) /\
    prepare_media env args src (import_engine env s1).2 = (Ok prepared, s3) /\
    emits (fun e => file_work e = false) st (import_engine env s1).2 /\
    emits early st s3 /\ stdout s3 = stdout st /\
    main_tail env args src prepared s3 = (r, st').
Proof.
  intros H. apply main_inv in H as (r1 & s1 & H1 & H).
  pose proof (resolve_input_spec _ _ _ _ _ H1) as (_ & O1 & E1 & _).
  destruct r1 as [src|e].
  2:{ destruct H as [-> ->]. left.
      apply (emits_weaken _ early) in E1; [|by left]. eauto 10. }
  destruct H as (r2 & s2 & H2 & H).
  pose proof (import_engine_spec _ _ _ _ H2) as (_ & O2 & E2 & _).
  pose proof (emits_trans _ _ _ _ E1 E2) as Eprobe.
  apply (emits_weaken _ early) in E2; [|by left].
  apply (emits_weaken _ early) in E1; [|by left].
  pose proof (emits_trans _ _ _ _ E1 E2) as E12.
  destruct r2 as [[]|e].
  2:{ destruct H as [-> ->]. left. exists s2. rewrite O2, O1. eauto 10. }
  destruct H as (r3 & s3 & H3 & H).
  pose proof (prepare_media_emits _ _ _ _ H3) as E3.
  apply (emits_weaken _ early) in E3; [|by right].
  pose proof (emits_trans _ _ _ _ E12 E3) as E123.
  pose proof (prepare_media_stdout _ _ _ _ _ _ H3) as O3.
  destruct r3 as [prepared|e].
  2:{ destruct H as [-> ->]. left. exists s3. rewrite O3, O2, O1. eauto 10. }
  right. exists src, s1, prepared, s3. rewrite H2. cbn [snd].
  split; [done|]. split; [done|]. split; [done|]. split; [done|].
  split; [by rewrite O3, O2, O1|done].
Qed.

Lemma early_not_engine (ev : event) : early ev -> is_engine ev = false.
Proof. by destruct ev; intros [?|?]. Qed.

(** The engine calls of the later stages. *)
Lemma main_tail_engine (src : Path) (prepared : Path * option Path)
  st r st' (ev : event) :
  main_tail env args src prepared st = (r, st') ->
  ev ∈ calls st' -> is_engine ev = true ->
  ev ∈ calls st \/
  ev = LoadModel (model args) (resolve_device env args) \/
  ev = Transcribe (to_str prepared.1) (language args) /\
  load_model env (model args) (resolve_device env args) = None.
Proof.
  intros H Hev Heng. apply main_tail_inv in H as (r4 & s4 & H4 & H).
  rewrite run_whisper_eq in H4.
  assert (H4' : ev ∈ calls s4 ->
    ev ∈ calls st \/
    ev = LoadModel (model args) (resolve_device env args) \/
    ev = Transcribe (to_str prepared.1) (language args) /\
    load_model env (model args) (resolve_device env args) = None).
  { destruct (load_model env _ _); injection H4 as _ <-; cbn [calls];
      intros Hin; apply elem_of_app in Hin as [?|Hin]; [by left| |by left|].
    - apply list_elem_of_singleton in Hin. auto.
    - apply elem_of_cons in Hin as [?|Hin]; [auto|].
      apply list_elem_of_singleton in Hin. auto. }
  destruct r4 as [result|]; [|destruct H as [_ ->]; auto].
  destruct H as (r5 & s5 & H5 & H).
  apply save_transcript_frame in H5 as (_ & E5 & _).
  assert (H5' : ev ∈ calls s5 -> ev ∈ calls s4).
  { intros Hin. destruct (emits_elem _ _ _ _ E5 Hin) as [?|Hw]; [done|].
    destruct ev; discriminate. }
  destruct r5 as [out_txt|]; [|destruct H as [_ ->]; auto].
  apply cleanup_spec in H as (_ & _ & E6 & _).
  destruct (emits_elem _ _ _ _ E6 Hev) as [Hin|Hc]; [auto|].
  destruct ev; discriminate.
Qed.

Lemma wav_in_differs (tmpdir : Path) : wav_in tmpdir <> tmpdir.
Proof.
  destruct tmpdir as [r ps]. unfold wav_in. cbn [root parts]. intros [= H].
  apply (f_equal length) in H. rewrite length_app in H. cbn [length] in H. lia.
Qed.

(** A directory staged by the preparation is in place after it. *)
Lemma prepare_media_staged (src : Path) st r st' (t : Path) :
  prepare_media env args src st = (r, st') ->
  Mkdtemp t ∈ calls st' -> Mkdtemp t ∉ calls st ->
  files st' !! t = Some Dir.
Proof.
  intros H Hin Hout.
  pose proof (prepare_media_spec _ _ _ _ _ _ H) as Hspec.
  destruct (audio_track args) as [track|] eqn:Htrack.
  2:{ destruct Hspec as [_ ->]. contradiction. }
  destruct (prepare_media_state _ _ _ _ _ _ _ Htrack H) as (r0 & Hx).
  destruct Hspec as [(_ & _ & _ & Hc)|(_ & tmpdir & Hran & _)].
  { rewrite Hc in Hin. apply elem_of_app in Hin as [?|Hin]; [done|].
    by apply list_elem_of_singleton in Hin. }
  destruct Hran as (_ & _ & Hc & Hf).
  pose proof (staged_dir_normal _ _ _ _ _ _ _ _ Hx Hc) as Hnormal.
  rewrite (of_str_to_str_normal _ (wav_in_normal _ Hnormal)) in Hf.
  rewrite Hc in Hin. apply elem_of_app in Hin as [?|Hin]; [done|].
  assert (t = tmpdir) as ->.
  { repeat (apply elem_of_cons in Hin as [Hin|Hin]; [try discriminate|]).
    - by injection Hin.
    - by apply elem_of_nil in Hin. }
  rewrite Hf. destruct (spawn env _).2.
  - rewrite lookup_insert_ne by apply wav_in_differs. by rewrite lookup_insert_eq.
  - by rewrite lookup_insert_eq.
Qed.

End Engine.

(** X6.  The engine is called as configured: the model is loaded under the
    name given with [--model] on the device the run resolved, and the one
    file transcribed, with the language given with [--language], is the
    input itself when no track was selected and otherwise the
    [audio_track.wav] of the directory staged in this run, after FFmpeg
    exited with status 0. *)
Theorem engine_called_as_configured (env : Env) (args : Args)
  (fs : gmap Path node) (o : outcome) (st' : state) :
  run env args (start fs) = (o, st') ->
  (forall n d, LoadModel n d ∈ calls st' ->
     n = model args /\ d = resolve_device env args) /\
  (forall p l, Transcribe p l ∈ calls st' ->
     l = language args /\
     load_model env (model args) (resolve_device env args) = None /\
     exists src s1,
       resolve_input env args (start fs) = (Ok src, s1) /\
       match audio_track args with
       | None => p = to_str src
       | Some track =>
           exists tmpdir,
             Mkdtemp tmpdir ∈ calls st' /\
             of_str p = wav_in tmpdir /\
             (spawn env (ffmpeg_cmd src (wav_in tmpdir) track)).1 = 0%Z
       end).
Proof.
  intros Hrun. apply (run_inv env args) in Hrun as (r & Hmain & _).
  apply main_head in Hmain
    as [(s0 & E0 & _ & _ & -> & _)|(src & s1 & prepared & s3 & H1 & H3 & _ & E3 & _ & Ht)].
  { split; [intros n d Hin|intros p l Hin];
      (destruct (emits_elem _ _ _ _ E0 Hin) as [Hnil|He];
         [by apply elem_of_nil in Hnil|by apply early_not_engine in He]). }
  assert (Hen : forall ev, ev ∈ calls st' -> is_engine ev = true ->
    ev = LoadModel (model args) (resolve_device env args) \/
    ev = Transcribe (to_str prepared.1) (language args) /\
    load_model env (model args) (resolve_device env args) = None).
  { intros ev Hev Heng.
    destruct (main_tail_engine _ _ _ _ _ _ _ _ Ht Hev Heng) as [Hin|?]; [|done].
    destruct (emits_elem _ _ _ _ E3 Hin) as [Hnil|He];
      [by apply elem_of_nil in Hnil|].
    apply early_not_engine in He. congruence. }
  split.
  - intros n d Hin.
    destruct (Hen _ Hin eq_refl) as [[= -> ->]|[[=] _]]. done.
  - intros p l Hin.
    destruct (Hen _ Hin eq_refl) as [[=]|[[= -> ->] Hload]].
    split; [done|]. split; [exact Hload|].
    exists src, s1. split; [exact H1|].
    pose proof (prepare_media_spec _ _ _ _ _ _ H3) as Hspec.
    destruct (audio_track args) as [track|] eqn:Htrack.
    + destruct (prepare_media_state _ _ _ _ _ _ _ Htrack H3) as (r0 & Hx).
      destruct Hspec as [([[_ [=]]|[_ [w [=]]]] & _)|(_ & tmpdir & Hran & Hr)].
      cbv zeta in Hr.
      destruct (Z.eqb_spec (spawn env (ffmpeg_cmd src (wav_in tmpdir) track)).1 0)
        as [Hzero|_]; [|discriminate].
      injection Hr as ->. cbn [fst].
      destruct Hran as (_ & _ & Hcalls & _).
      exists tmpdir. split; [|split; [|exact Hzero]].
      * apply main_tail_emits in Ht as (evs & -> & _).
        apply elem_of_app. left. rewrite Hcalls.
        apply elem_of_app. right. apply elem_of_cons. right. by left.
      * apply of_str_to_str_normal, wav_in_normal.
        exact (staged_dir_normal _ _ _ _ _ _ _ _ Hx Hcalls).
    + by destruct Hspec as [[= ->] _].
Qed.


(** ** Runs without a track selector *)

Section Probes.

Variable env : Env.
Variable args : Args.

Lemma resolve_input_calls st r st' :
  resolve_input env args st = (r, st') ->
  calls st' = calls st ++
    match if_truthy (input args) with
    | Some s =>
        match (expanduser env (of_str s) st).1 with
        | Ok p => [Stat p]
        | Raise _ => []
        end
    | None =>
        match if_truthy (askopenfilename env) with
        | Some f => [Dialog; Stat (of_str f)]
        | None => [Dialog]
        end
    end.
Proof.
  unfold resolve_input.
  destruct (if_truthy (input args)) as [s|].
  - destruct (expanduser env (of_str s) st) as [[q|e] s0] eqn:Hq;
      pose proof (expanduser_spec _ _ _ _ _ Hq) as [-> _]; cbn [fst].
    + rewrite (bind_ok _ _ _ _ _ (bind_ok _ _ _ _ _ Hq)).
      unfold path_exists, bind, log, get_files, ret, sys_exit, raise.
      cbn [files stdout calls].
      by destruct (bool_decide _); intros [= _ <-].
    + rewrite (bind_raise _ _ _ _ _ (bind_raise _ _ _ _ _ Hq)).
      intros [= _ <-]. by rewrite app_nil_r.
  - unfold pick_file_dialog, path_exists, bind, log, get_files, ret,
      sys_exit, raise, if_truthy.
    destruct (askopenfilename env) as [f|]; [destruct (truthy f)|];
      cbv beta iota; cbn [files stdout calls];
      try destruct (bool_decide _); intros [= _ <-]; cbn [calls];
      by rewrite <- ?app_assoc.
Qed.


Lemma import_engine_imports st r st' :
  import_engine env st = (r, st') ->
  emits (fun e => exists m, e = Import m) st st'.
Proof.
  unfold import_engine, try_except, import_, bind, log, ret, raise, sys_exit.
  destruct (can_import env (lit "whisper")); cbv beta iota;
    [destruct (can_import env (lit "torch")); cbv beta iota|];
    intros [= _ <-]; cbn [calls];
    eexists; (split; [by rewrite <- ?app_assoc|]); repeat constructor; eauto.
Qed.


(** After the input is resolved the picker is not opened again. *)
Lemma main_after_input st r st' :
  main env args st = (r, st') ->
  exists r1 s1, resolve_input env args st = (r1, s1) /\
                emits (fun e => e <> Dialog) s1 st'.
Proof.
  intros H. apply main_inv in H as (r1 & s1 & H1 & H).
  exists r1, s1. split; [exact H1|].
  destruct r1 as [src|]; [|destruct H as [_ ->]; apply emits_refl].
  destruct H as (r2 & s2 & H2 & H).
  apply import_engine_imports in H2.
  apply (emits_weaken _ (fun e => e <> Dialog)) in H2; [|by intros ev [m ->]].
  destruct r2 as [[]|]; [|by destruct H as [_ ->]].
  destruct H as (r3 & s3 & H3 & H).
  apply prepare_media_emits in H3.
  apply (emits_weaken _ (fun e => e <> Dialog)) in H3;
    [|by intros ev Hev ->].
  pose proof (emits_trans _ _ _ _ H2 H3) as E23.
  destruct r3 as [prepared|]; [|by destruct H as [_ ->]].
  apply main_tail_emits in H.
  apply (emits_weaken _ (fun e => e <> Dialog)) in H;
    [|by intros ev [Hev|[Hev|Hev]] ->].
  by eapply emits_trans.
Qed.


Lemma mkdir_chain_raises (ps : list Path) st e st' :
  mkdir_chain env ps st = (Raise e, st') -> exists w, e = OSError w.
Proof.
  revert st. induction ps as [|q ps IH]; intros st; simpl; [discriminate|].
  unfold bind at 1, get_files at 1.
  destruct (node_at (files st) q) as [[|content]|].
  - apply IH.
  - intros [= <- _]. eauto.
  - destruct (mkdir_refused env q); [intros [= <- _]; eauto|].
    unfold bind at 1, set_files at 1. apply IH.
Qed.

(** The writer never replaces a directory. *)
Lemma save_transcript_keeps_dirs (src : Path) (result : gmap str value)
  st r st' (q : Path) :
  save_transcript env args src result st = (r, st') ->
  files st !! q = Some Dir -> files st' !! q = Some Dir.
Proof.
  unfold save_transcript. intros H Hq.
  apply bind_inv in H as [(out_dir & st0 & Hd & H)|(e & Hd & ->)].
  2:{ by destruct (output_dir_state _ _ _ _ _ _ st Hd) as [-> _]. }
  destruct (output_dir_state _ _ _ _ _ _ st Hd) as [-> _].
  apply bind_inv in H as [([] & st1 & Hmk & H)|(e & Hmk & ->)].
  2:{ apply mkdir_parents_spec in Hmk as (_ & _ & Hkeep & _). eauto. }
  apply mkdir_parents_spec in Hmk as (_ & _ & Hkeep & _).
  specialize (Hkeep q Dir Hq).
  apply bind_inv in H as [(text & st2 & Ht & H)|(e & Ht & ->)].
  2:{ destruct (result_text result); [discriminate|]. by injection Ht as _ <-. }
  destruct (result_text result); [|discriminate]. injection Ht as _ <-.
  set (out := joinpath out_dir (transcript_name src)) in *.
  assert (Hw : forall rw sw, write_text env out (file_text text) st1 = (rw, sw) ->
            files sw !! q = Some Dir).
  { intros rw sw. rewrite write_text_eq. cbv zeta.
    destruct (decide (q = out)) as [->|Hne].
    - assert (node_at (files st1) out = Some Dir) as ->
        by (unfold node_at; by destruct (parts out)).
      by repeat case_match; intros [= _ <-].
    - repeat case_match; intros [= _ <-]; cbn [files];
        by rewrite ?lookup_insert_ne. }
  apply bind_inv in H as [([] & st3 & Hwr & [= <- <-])|(e & Hwr & ->)]; eauto.
Qed.

End Probes.


(** X9.  The picker is opened exactly when no usable [--input] was given,
    an empty [--input] included, and then it is the first thing the
    program does; with a non-empty [--input] it is never opened. *)
Theorem picker_opens_without_input (env : Env) (args : Args)
  (fs : gmap Path node) (o : outcome) (st' : state) :
  run env args (start fs) = (o, st') ->
  (Dialog ∈ calls st' <-> if_truthy (input args) = None) /\
  (if_truthy (input args) = None -> head (calls st') = Some Dialog).
Proof.
  intros Hrun. apply (run_inv env args) in Hrun as (r & Hmain & _).
  apply main_after_input in Hmain as (r1 & s1 & H1 & (evs & Hevs & Pevs)).
  apply resolve_input_calls in H1. cbn [calls start app] in H1.
  rewrite H1 in Hevs.
  assert (Hnot : Dialog ∉ evs).
  { intros Hin. by apply (proj1 (Forall_forall _ _) Pevs) in Hin. }
  destruct (if_truthy (input args)) as [s|].
  - split; [|discriminate]. split; [|discriminate].
    rewrite Hevs. intros Hin. exfalso.
    apply elem_of_app in Hin as [Hin|Hin]; [|contradiction].
    destruct (expanduser env (of_str s) (start fs)).1.
    + by apply list_elem_of_singleton in Hin.
    + by apply elem_of_nil in Hin.
  - assert (Hhead : exists rest, calls st' = Dialog :: rest).
    { rewrite Hevs. destruct (if_truthy (askopenfilename env)); eauto. }
    destruct Hhead as (rest & ->). split; [|done]. split; [done|].
    intros _. by left.
Qed.


(** X11.  A run that fails cleans nothing up: whatever stops it, a
    directory it staged is still there when the process ends, and its
    removal was never attempted. *)
Theorem failed_run_keeps_staged_dir (env : Env) (args : Args)
  (fs : gmap Path node) (o : outcome) (st' : state) (t : Path) :
  run env args (start fs) = (o, st') ->
  o <> Returned ->
  Mkdtemp t ∈ calls st' ->
  files st' !! t = Some Dir /\ (forall d, Rmtree d ∉ calls st').
Proof.
  intros Hrun Hfail Hin.
  apply (run_inv env args) in Hrun as (r & Hmain & ->).
  assert (Hnone : forall (P : event -> Prop) s s' ev,
            emits P s s' -> ev ∉ calls s -> ~ P ev -> ev ∉ calls s').
  { intros P s s' ev E Hs HP Hs'.
    by destruct (emits_elem _ _ _ _ E Hs'). }
  apply main_inv in Hmain as (r1 & s1 & H1 & Hmain).
  apply resolve_input_spec in H1 as (_ & _ & E1 & _).
  assert (M1 : Mkdtemp t ∉ calls s1)
    by (apply (Hnone _ _ _ _ E1); [apply not_elem_of_nil|done]).
  assert (R1 : forall d, Rmtree d ∉ calls s1)
    by (intros d; apply (Hnone _ _ _ _ E1); [apply not_elem_of_nil|done]).
  destruct r1 as [src|]; [|destruct Hmain as [_ ->]; contradiction].
  destruct Hmain as (r2 & s2 & H2 & Hmain).
  apply import_engine_spec in H2 as (_ & _ & E2 & _).
  assert (M2 : Mkdtemp t ∉ calls s2) by (by apply (Hnone _ _ _ _ E2)).
  assert (R2 : forall d, Rmtree d ∉ calls s2)
    by (intros d; by apply (Hnone _ _ _ _ E2)).
  destruct r2 as [[]|]; [|destruct Hmain as [_ ->]; contradiction].
  destruct Hmain as (r3 & s3 & H3 & Hmain).
  pose proof (prepare_media_emits _ _ _ _ _ _ H3) as E3.
  assert (R3 : forall d, Rmtree d ∉ calls s3)
    by (intros d; by apply (Hnone _ _ _ _ E3)).
  pose proof (fun Hin3 => prepare_media_staged _ _ _ _ _ _ _ H3 Hin3 M2) as D3.
  destruct r3 as [prepared|]; [|destruct Hmain as [_ ->]; by split; [apply D3|]].
  assert (Hin3 : Mkdtemp t ∈ calls s3).
  { apply main_tail_emits in Hmain.
    by destruct (emits_elem _ _ _ _ Hmain Hin) as [|[|[|]]]. }
  specialize (D3 Hin3).
  apply main_tail_inv in Hmain as (r4 & s4 & H4 & Hmain).
  apply run_whisper_spec in H4 as (F4 & _ & E4).
  assert (R4 : forall d, Rmtree d ∉ calls s4)
    by (intros d; by apply (Hnone _ _ _ _ E4)).
  rewrite <- F4 in D3.
  destruct r4 as [result|]; [|by destruct Hmain as [_ ->]].
  destruct Hmain as (r5 & s5 & H5 & Hmain).
  pose proof (save_transcript_keeps_dirs _ _ _ _ _ _ _ _ H5 D3) as D5.
  apply save_transcript_frame in H5 as (_ & E5 & _).
  assert (R5 : forall d, Rmtree d ∉ calls s5)
    by (intros d; by apply (Hnone _ _ _ _ E5)).
  destruct r5 as [out_txt|]; [|by destruct Hmain as [_ ->]].
  apply cleanup_spec in Hmain as (-> & _). by exfalso.
Qed.

(** ** Failures of the writer *)

(** X12.  Text that cannot be encoded as UTF-8 costs the transcript: the
    file is opened, and so created or emptied, before the text is encoded,
    so when the write ends with [UnicodeEncodeError] the transcript file
    exists and is empty, whatever it held before. *)
Theorem failed_encoding_empties_transcript (env : Env) (args : Args)
  (src : Path) (result : gmap str value) (st st' : state) :
  save_transcript env args src result st = (Raise UnicodeEncodeError, st') ->
  exists out_dir text,
    let out := joinpath out_dir (transcript_name src) in
    output_dir env args src st = (Ok out_dir, st) /\
    result_text result = Ok text /\
    encode_utf8 (file_text text) = None /\
    OpenW out ∈ calls st' /\
    files st' !! out = Some (File []) /\
    stdout st' = stdout st.
Proof.
  unfold save_transcript. intros H.
  apply bind_inv in H as [(out_dir & st0 & Hd & H)|(e & Hd & He)].
  2:{ exfalso. unfold output_dir in Hd.
      destruct (if_truthy (outdir args)); [|discriminate].
      apply expanduser_spec in Hd as (_ & w & ->). discriminate. }
  destruct (output_dir_state _ _ _ _ _ _ st Hd) as [-> Hd'].
  apply bind_inv in H as [([] & st1 & Hmk & H)|(e & Hmk & He)].
  2:{ exfalso. unfold mkdir_parents, bind at 1, log at 1 in Hmk.
      apply mkdir_chain_raises in Hmk as (w & ->). discriminate. }
  apply mkdir_parents_spec in Hmk as (O1 & _).
  apply bind_inv in H as [(text & st2 & Ht & H)|(e & Ht & He)].
  2:{ exfalso. injection He as <-. unfold result_text, lift, ret, raise in Ht.
      destruct (default _ _); discriminate. }
  destruct (result_text result) as [text'|] eqn:Htext; [|discriminate Ht].
  injection Ht as <- <-.
  apply bind_inv in H as [([] & st3 & Hwr & [=])|(e & Hwr & [= <-])].
  rewrite write_text_eq in Hwr. cbv zeta in Hwr.
  exists out_dir, text'. cbv zeta. split; [exact Hd'|]. split; [done|].
  destruct (node_at (files st1) (parent _)) as [[|?]|]; [|discriminate..].
  destruct (node_at (files st1) (joinpath _ _)) as [[|?]|]; [discriminate|..];
    (destruct (open_refused env _); [discriminate|]);
    (destruct (encode_utf8 (file_text text')); [discriminate|]);
    injection Hwr as <-; cbn [files stdout calls];
    (split; [done|]);
    (split; [apply elem_of_app; right; by left|]);
    by rewrite lookup_insert_eq.
Qed.

Section OutputDirectory.

Variable env : Env.

(** A regular file in the way stops the creation of the directories. *)
Lemma mkdir_chain_blocked (ps : list Path) (q : Path) (c : list N) st r st' :
  q ∈ ps -> node_at (files st) q = Some (File c) ->
  mkdir_chain env ps st = (r, st') ->
  (exists w, r = Raise (OSError w)) /\ node_at (files st') q = Some (File c).
Proof.
  revert st. induction ps as [|q0 ps IH]; intros st Hin Hq; simpl.
  { by apply elem_of_nil in Hin. }
  unfold bind at 1, get_files at 1.
  destruct (node_at (files st) q0) as [[|content]|] eqn:Hq0.
  - apply IH; [|done]. apply elem_of_cons in Hin as [->|?]; [congruence|done].
  - intros [= <- <-]. eauto.
  - destruct (mkdir_refused env q0); [intros [= <- <-]; eauto|].
    unfold bind at 1, set_files at 1. apply IH.
    + apply elem_of_cons in Hin as [->|?]; [congruence|done].
    + cbn [files]. unfold node_at in *.
      destruct (parts q); [done|]. rewrite lookup_insert_ne; [done|].
      intros ->. destruct (parts q); congruence.
Qed.

End OutputDirectory.

(** X13.  A regular file where the output directory, or one of the
    directories above it, should be stops the writer: it raises [OSError]
    before any file is opened, the line [Transcript saved to] is not
    printed, and the file in the way is left as it is. *)
Theorem outdir_blocked_by_file (env : Env) (args : Args) (src : Path)
  (result : gmap str value) (st : state) (r : res Path) (st' : state)
  (out_dir q : Path) (c : list N) :
  output_dir env args src st = (Ok out_dir, st) ->
  q ∈ ancestors out_dir ->
  node_at (files st) q = Some (File c) ->
  save_transcript env args src result st = (r, st') ->
  (exists w, r = Raise (OSError w)) /\
  calls st' = calls st ++ [Mkdir out_dir] /\
  stdout st' = stdout st /\
  node_at (files st') q = Some (File c).
Proof.
  intros Hd Hin Hq. unfold save_transcript.
  rewrite (bind_ok _ _ _ _ _ Hd).
  destruct (mkdir_parents env out_dir st) as [rm st1] eqn:Hmk.
  pose proof (mkdir_parents_spec _ _ _ _ _ Hmk) as (O1 & C1 & _).
  assert (Hb : (exists w, rm = Raise (OSError w)) /\
               node_at (files st1) q = Some (File c)).
  { revert Hmk. unfold mkdir_parents, bind at 1, log at 1.
    by apply mkdir_chain_blocked. }
  destruct Hb as ((w & ->) & Hq').
  rewrite (bind_raise _ _ _ _ _ Hmk). intros [= <- <-]. eauto.
Qed.

(** X14.  An output directory that does not exist is created, with the
    directories above it: after a successful write the output directory
    and every directory above it exist, and the transcript is the file
    [<stem>_transcript.txt] in it. *)
Theorem outdir_is_created (env : Env) (args : Args) (src : Path)
  (result : gmap str value) (st : state) (out : Path) (st' : state) :
  save_transcript env args src result st = (Ok out, st') ->
  exists out_dir content,
    output_dir env args src st = (Ok out_dir, st) /\
    out = joinpath out_dir (transcript_name src) /\
    Mkdir out_dir ∈ calls st' /\
    node_at (files st') out_dir = Some Dir /\
    Forall (fun q => node_at (files st') q = Some Dir) (ancestors out_dir) /\
    files st' !! out = Some (File content).
Proof.
  intros H. apply save_transcript_ok_inv in H
    as (out_dir & st1 & text & content & Hd & Hmk & -> & _ & _ & _ & Hout & _ & ->).
  apply mkdir_parents_spec in Hmk as (_ & C1 & _ & Hdirs).
  destruct (Hdirs eq_refl) as [Hdir Hall].
  set (out := joinpath out_dir (transcript_name src)) in *.
  assert (Hkeep : forall q, node_at (files st1) q = Some Dir ->
            node_at (<[out := File content]> (files st1)) q = Some Dir).
  { intros q Hq. unfold node_at in *. destruct (parts q) eqn:Hp; [done|].
    rewrite lookup_insert_ne; [done|]. intros <-.
    apply Hout. unfold node_at. by rewrite Hp. }
  exists out_dir, content. cbn [files calls].
  split; [done|]. split; [done|]. split; [|split; [|split]].
  - rewrite C1. apply elem_of_app. left. apply elem_of_app. right. by left.
  - by apply Hkeep.
  - eapply Forall_impl; [exact Hall|]. exact Hkeep.
  - by rewrite lookup_insert_eq.
Qed.

(** * The further properties on concrete runs *)

(** X1, witness: the path of the transcript of [/media/multi.mkv]. *)
Lemma built_paths_round_trip_demo :
  built (joinpath (parent Demo.multi) (transcript_name Demo.multi)) /\
  of_str (to_str (joinpath (parent Demo.multi) (transcript_name Demo.multi)))
  = joinpath (parent Demo.multi) (transcript_name Demo.multi).
Proof.
  assert (Hb : built (joinpath (parent Demo.multi) (transcript_name Demo.multi)))
    by apply built_joinpath, built_parent, built_of_str.
  split; [exact Hb|exact (built_paths_round_trip _ Hb)].
Defined.

(** X2, witness: the healthy extraction of track 1 creates
    [audio_track.wav] in the staged directory. *)
Lemma extraction_stays_in_staged_dir_demo :
  exists tmpdir,
    Mkdtemp tmpdir ∈
      calls (extract_track_to_wav Demo.healthy Demo.multi 1 (start Demo.fs)).2 /\
    under tmpdir (wav_in Demo.tmp).
Proof.
  destruct (extraction_stays_in_staged_dir Demo.healthy Demo.multi 1
              (start Demo.fs)
              (extract_track_to_wav Demo.healthy Demo.multi 1 (start Demo.fs)).1
              (extract_track_to_wav Demo.healthy Demo.multi 1 (start Demo.fs)).2
              (wav_in Demo.tmp)
              (surjective_pairing _) ltac:(decide_compute))
    as (tmpdir & Hin & _ & _ & Hunder & _).
  exists tmpdir. split; [exact Hin|exact Hunder].
Defined.



(** X5, witness: [--input /media/absent.mkv]. *)
Lemma invalid_input_is_fatal_demo :
  nothing_to_transcribe Demo.healthy Demo.absent Demo.fs /\
  exists st',
    run Demo.healthy Demo.absent (start Demo.fs)
    = (Exited no_valid_input, st') /\
    files st' = Demo.fs /\ stdout st' = [].
Proof.
  assert (Hnothing : nothing_to_transcribe Demo.healthy Demo.absent Demo.fs).
  { exists (of_str (lit "/media/absent.mkv")). split; [reflexivity|by_compute]. }
  split; [exact Hnothing|].
  destruct (invalid_input_is_fatal Demo.healthy Demo.absent Demo.fs Hnothing)
    as (st' & Hrun & _ & _ & Hfiles & Hout).
  exists st'. split; [exact Hrun|]. split; [exact Hfiles|exact Hout].
Defined.

(** X6, witness: the healthy run with [--audio-track 1] loads [medium] on
    [cuda] and transcribes the extracted file. *)
Lemma engine_called_as_configured_demo :
  (forall n d,
     LoadModel n d ∈ calls (run Demo.healthy Demo.track1 (start Demo.fs)).2 ->
     n = lit "medium" /\ d = lit "cuda") /\
  Transcribe (lit "/tmp/whisper_k3x9q_2a/audio_track.wav") None ∈
    calls (run Demo.healthy Demo.track1 (start Demo.fs)).2.
Proof.
  split; [|decide_compute].
  exact (proj1 (engine_called_as_configured Demo.healthy Demo.track1 Demo.fs
                  (run Demo.healthy Demo.track1 (start Demo.fs)).1
                  (run Demo.healthy Demo.track1 (start Demo.fs)).2
                  (surjective_pairing _))).
Defined.



(** X9, witness: [--input ""] opens the picker. *)
Lemma picker_opens_without_input_demo :
  input Demo.empty_input = Some [] /\
  Dialog ∈ calls (run Demo.healthy Demo.empty_input (start Demo.fs)).2 /\
  head (calls (run Demo.healthy Demo.empty_input (start Demo.fs)).2)
  = Some Dialog.
Proof.
  split; [reflexivity|].
  destruct (picker_opens_without_input Demo.healthy Demo.empty_input Demo.fs
              (run Demo.healthy Demo.empty_input (start Demo.fs)).1
              (run Demo.healthy Demo.empty_input (start Demo.fs)).2
              (surjective_pairing _)) as [[_ Hopen] Hfirst].
  split; [exact (Hopen eq_refl)|exact (Hfirst eq_refl)].
Defined.


(** X11, witness: the tool exits with status 1 and the staged directory
    stays. *)
Lemma failed_run_keeps_staged_dir_demo :
  (run Demo.tool_fails Demo.track1 (start Demo.fs)).1 <> Returned /\
  files (run Demo.tool_fails Demo.track1 (start Demo.fs)).2 !! Demo.tmp
  = Some Dir /\
  (forall d, Rmtree d ∉ calls (run Demo.tool_fails Demo.track1 (start Demo.fs)).2).
Proof.
  assert (Hfail : (run Demo.tool_fails Demo.track1 (start Demo.fs)).1 <> Returned).
  { assert (exit_status (run Demo.tool_fails Demo.track1 (start Demo.fs)).1 = 1%Z)
      as Hstatus by by_compute.
    intros Heq. rewrite Heq in Hstatus. discriminate. }
  split; [exact Hfail|].
  exact (failed_run_keeps_staged_dir Demo.tool_fails Demo.track1 Demo.fs
           (run Demo.tool_fails Demo.track1 (start Demo.fs)).1
           (run Demo.tool_fails Demo.track1 (start Demo.fs)).2
           Demo.tmp (surjective_pairing _) Hfail ltac:(decide_compute)).
Defined.

(** X12, witness: a transcript is written, and a second write with text
    that cannot be encoded empties it. *)
Lemma failed_encoding_empties_transcript_demo :
  let before :=
    (save_transcript Demo.healthy Demo.direct Demo.multi
       (Demo.said (lit "hello")) (start Demo.fs)).2 in
  let after :=
    (save_transcript Demo.healthy Demo.direct Demo.multi
       (Demo.said Demo.lone_surrogate) before).2 in
  files before !! of_str (lit "/media/multi_transcript.txt")
  = Some (File (lit "hello" ++ newline)) /\
  exists out_dir,
    output_dir Demo.healthy Demo.direct Demo.multi before = (Ok out_dir, before) /\
    files after !! joinpath out_dir (transcript_name Demo.multi) = Some (File []).
Proof.
  cbv zeta. split; [by_compute|].
  destruct (failed_encoding_empties_transcript Demo.healthy Demo.direct
              Demo.multi (Demo.said Demo.lone_surrogate)
              (save_transcript Demo.healthy Demo.direct Demo.multi
                 (Demo.said (lit "hello")) (start Demo.fs)).2
              (save_transcript Demo.healthy Demo.direct Demo.multi
                 (Demo.said Demo.lone_surrogate)
                 (save_transcript Demo.healthy Demo.direct Demo.multi
                    (Demo.said (lit "hello")) (start Demo.fs)).2).2
              ltac:(by_fst))
    as (out_dir & text & Hdir & _ & _ & _ & Hfile & _).
  exists out_dir. split; [exact Hdir|exact Hfile].
Defined.

(** X13, witness: [--outdir /media/multi.mkv], an existing file. *)
Lemma outdir_blocked_by_file_demo :
  (exists w,
     (save_transcript Demo.healthy Demo.outdir_is_file Demo.clip
        (Demo.said (lit "hello")) (start Demo.fs)).1 = Raise (OSError w)) /\
  node_at
    (files (save_transcript Demo.healthy Demo.outdir_is_file Demo.clip
              (Demo.said (lit "hello")) (start Demo.fs)).2) Demo.multi
  = Some (File [26; 69; 223; 163]).
Proof.
  destruct (outdir_blocked_by_file Demo.healthy Demo.outdir_is_file Demo.clip
              (Demo.said (lit "hello")) (start Demo.fs)
              (save_transcript Demo.healthy Demo.outdir_is_file Demo.clip
                 (Demo.said (lit "hello")) (start Demo.fs)).1
              (save_transcript Demo.healthy Demo.outdir_is_file Demo.clip
                 (Demo.said (lit "hello")) (start Demo.fs)).2
              Demo.multi Demo.multi [26; 69; 223; 163]%N
              eq_refl ltac:(decide_compute) ltac:(by_compute)
              (surjective_pairing _))
    as (Hr & _ & _ & Hfile).
  split; [exact Hr|exact Hfile].
Defined.

(** X14, witness: [--outdir /exports/2024/talks] on a machine without
    [/exports]. *)
Lemma outdir_is_created_demo :
  node_at Demo.fs (of_str (lit "/exports")) = None /\
  exists out_dir content,
    out_dir = of_str (lit "/exports/2024/talks") /\
    Forall (fun q =>
              node_at
                (files (save_transcript Demo.healthy Demo.new_outdir Demo.multi
                          (Demo.said (lit "hello")) (start Demo.fs)).2) q
              = Some Dir) (ancestors out_dir) /\
    files (save_transcript Demo.healthy Demo.new_outdir Demo.multi
             (Demo.said (lit "hello")) (start Demo.fs)).2
      !! of_str (lit "/exports/2024/talks/multi_transcript.txt")
    = Some (File content).
Proof.
  split; [by_compute|].
  destruct (outdir_is_created Demo.healthy Demo.new_outdir Demo.multi
              (Demo.said (lit "hello")) (start Demo.fs)
              (of_str (lit "/exports/2024/talks/multi_transcript.txt"))
              (save_transcript Demo.healthy Demo.new_outdir Demo.multi
                 (Demo.said (lit "hello")) (start Demo.fs)).2
              ltac:(by_fst))
    as (out_dir & content & Hdir & _ & _ & _ & Hall & Hfile).
  exists out_dir, content.
  assert (Hd : output_dir Demo.healthy Demo.new_outdir Demo.multi (start Demo.fs)
               = (Ok (of_str (lit "/exports/2024/talks")), start Demo.fs))
    by reflexivity.
  rewrite Hd in Hdir. injection Hdir as <-.
  split; [reflexivity|]. split; [exact Hall|exact Hfile].
Defined.
